(** * Student grade calculator (cal.py): record and grading engine

    A shallow embedding of the logic of [cal.py]: the grade boundaries,
    [get_grade], [calculate_average], and the button callbacks that read
    and write the module-level session and roster variables.

    Conventions of the embedding.
    - A Python [str] is a [string] whose characters are code points below
      256; on that range [str.strip] and [float] know exactly the
      white space and digits listed below.
    - A Python [float] is a [pyfloat]: a rational, or one of the special
      values [inf], [-inf], [nan]; there is one zero.  [float(s)], [+]
      and [/] round their exact result to the nearest binary64 number
      (ties to even, overflow to infinity), as Python does; [sum] adds
      from left to right, one rounded addition for each value (CPython up
      to 3.11; later versions carry a correction term along the sum of
      floats, which can change its last bits).
    - Dictionaries keep insertion order: association lists with unique keys.
    - The [dict] objects holding marks live in an object store and are
      named by their address, so that sharing between the session and the
      roster is visible.
    - The text of the entry widgets is given to each callback as an
      argument; labels and the summary text box are presentation and are
      left out; every message box is recorded as a [dialog]. *)

From Stdlib Require Import ZArith QArith String Ascii List Bool Lia Lqa.
From stdpp Require Import base list strings.
Import ListNotations.

Local Open Scope string_scope.
Local Open Scope list_scope.

(** ** Python values *)

(** [float]: finite values are rationals. *)
Inductive pyfloat : Type :=
| finite (q : Q)
| inf (negative : bool)
| nan.

Definition of_int (z : Z) : pyfloat := finite (inject_Z z).

Definition Qlt_bool (a b : Q) : bool := negb (Qle_bool b a).

(** [x < y]; every comparison with [nan] is false. *)
Definition float_lt (x y : pyfloat) : bool :=
  match x, y with
  | nan, _ | _, nan => false
  | finite a, finite b => Qlt_bool a b
  | inf true, inf true => false
  | inf true, _ => true
  | _, inf true => false
  | inf false, _ => false
  | finite _, inf false => true
  end.

(** [x <= y]. *)
Definition float_le (x y : pyfloat) : bool :=
  match x, y with
  | nan, _ | _, nan => false
  | finite a, finite b => Qle_bool a b
  | inf true, _ => true
  | _, inf true => false
  | _, inf false => true
  | inf false, finite _ => false
  end.

Definition float_gt (x y : pyfloat) : bool := float_lt y x.
Definition float_ge (x y : pyfloat) : bool := float_le y x.

(** [n / d] rounded to the nearest integer, ties to the even one ([d > 0]). *)
Definition round_half_even (n d : Z) : Z :=
  let q := (n / d)%Z in
  let r := (n mod d)%Z in
  if (2 * r <? d)%Z then q
  else if (d <? 2 * r)%Z then (q + 1)%Z
  else if Z.even q then q else (q + 1)%Z.

(** The binary64 number nearest to a rational (ties to even): 53
    significant bits, least exponent -1074 (subnormal numbers), and
    infinity from [2^1024 - 2^970] on. *)
Definition binary64 (q : Q) : pyfloat :=
  let n := Qnum q in
  let d := Z.pos (Qden q) in
  if (n =? 0)%Z then finite 0
  else
    let a := Z.abs n in
    let e0 := (Z.log2 a - Z.log2 d)%Z in
    let below :=
      if (0 <=? e0)%Z then (a <? d * 2 ^ e0)%Z else (a * 2 ^ (- e0) <? d)%Z in
    let e := if below then (e0 - 1)%Z else e0 in
    let u := (Z.max e (-1022) - 52)%Z in
    let m :=
      if (0 <=? u)%Z then round_half_even a (d * 2 ^ u)
      else round_half_even (a * 2 ^ (- u)) d in
    let magnitude := if (0 <=? u)%Z then inject_Z (m * 2 ^ u)
                     else (m # Z.to_pos (2 ^ (- u))) in
    if Qle_bool (inject_Z (2 ^ 1024)) magnitude then inf (n <? 0)%Z
    else finite (Qred (if (n <? 0)%Z then - magnitude else magnitude)).

(** [x + y]: the exact sum, rounded. *)
Definition float_add (x y : pyfloat) : pyfloat :=
  match x, y with
  | nan, _ | _, nan => nan
  | finite a, finite b => binary64 (a + b)
  | inf s, finite _ => inf s
  | finite _, inf s => inf s
  | inf s, inf t => if Bool.eqb s t then inf s else nan
  end.

(** [float(n)] for a count [n]. *)
Definition float_of_count (n : nat) : pyfloat := binary64 (inject_Z (Z.of_nat n)).

(** [x / n] for a count [n]: the count is converted to a float, and the
    exact quotient is rounded.  The one call site has [n > 0] (Python
    raises ZeroDivisionError at [n = 0]), and a [len] is below [2^63], so
    that its conversion is finite. *)
Definition float_div_count (x : pyfloat) (n : nat) : pyfloat :=
  match x, float_of_count n with
  | nan, _ | _, nan => nan
  | finite a, finite b => binary64 (a / b)
  | finite _, inf _ => finite 0
  | inf s, finite _ => inf s
  | inf _, inf _ => nan
  end.

(** ** Strings: [str.strip] and [float(str)] *)

Definition code (c : ascii) : N := N_of_ascii c.

(** [str.isspace] on code points below 256: TAB..CR, FS..US, space, NEL,
    NBSP. *)
Definition isspace (c : ascii) : bool :=
  let n := code c in
  ((9 <=? n) && (n <=? 13) || (28 <=? n) && (n <=? 31)
   || (n =? 32) || (n =? 133) || (n =? 160))%N.

Fixpoint lstrip (s : string) : string :=
  match s with
  | String c r => if isspace c then lstrip r else s
  | EmptyString => EmptyString
  end.

Fixpoint rstrip (s : string) : string :=
  match s with
  | String c r =>
      let r' := rstrip r in
      if isspace c && (r' =? "")%string then EmptyString else String c r'
  | EmptyString => EmptyString
  end.

(** [s.strip()] *)
Definition strip (s : string) : string := rstrip (lstrip s).

(** White space skipped by [float] itself at both ends: the ASCII set
    TAB..CR and space, and NEL, NBSP which it first turns into a space. *)
Definition float_isspace (c : ascii) : bool :=
  let n := code c in
  ((9 <=? n) && (n <=? 13) || (n =? 32) || (n =? 133) || (n =? 160))%N.

Fixpoint float_lstrip (s : string) : string :=
  match s with
  | String c r => if float_isspace c then float_lstrip r else s
  | EmptyString => EmptyString
  end.

Fixpoint float_rstrip (s : string) : string :=
  match s with
  | String c r =>
      let r' := float_rstrip r in
      if float_isspace c && (r' =? "")%string then EmptyString else String c r'
  | EmptyString => EmptyString
  end.

Definition isdigit (c : ascii) : bool :=
  let n := code c in ((48 <=? n) && (n <=? 57))%N.

Definition digit_value (c : ascii) : Z := Z.of_N (code c) - 48.

(** Underscores may only stand between two digits; [prev] is the preceding
    character ([None] at the start). *)
Fixpoint underscores_ok (prev : option ascii) (s : string) : bool :=
  match s with
  | EmptyString =>
      match prev with Some "_"%char => false | _ => true end
  | String c r =>
      (if (c =? "_")%char
       then match prev with Some p => isdigit p | None => false end
       else match prev with Some "_"%char => isdigit c | _ => true end)
      && underscores_ok (Some c) r
  end.

Fixpoint remove_underscores (s : string) : string :=
  match s with
  | EmptyString => EmptyString
  | String c r =>
      if (c =? "_")%char then remove_underscores r
      else String c (remove_underscores r)
  end.

(** ASCII lower case, for the case-insensitive words inf, infinity, nan. *)
Definition lower (c : ascii) : ascii :=
  let n := code c in
  if ((65 <=? n) && (n <=? 90))%N then ascii_of_N (n + 32) else c.

Fixpoint lower_string (s : string) : string :=
  match s with
  | EmptyString => EmptyString
  | String c r => String (lower c) (lower_string r)
  end.

(** Reads a maximal run of digits: their value as a number, how many were
    read, and the rest of the string. *)
Fixpoint read_digits (acc : Z) (count : nat) (s : string) : Z * nat * string :=
  match s with
  | String c r =>
      if isdigit c then read_digits (10 * acc + digit_value c) (S count) r
      else (acc, count, s)
  | EmptyString => (acc, count, s)
  end.

Definition read_sign (s : string) : bool * string :=
  match s with
  | String "-"%char r => (true, r)
  | String "+"%char r => (false, r)
  | _ => (false, s)
  end.

(** The optional exponent part; [None] when malformed or followed by junk. *)
Definition read_exponent (s : string) : option Z :=
  match s with
  | EmptyString => Some 0%Z
  | String c r =>
      if (lower c =? "e")%char then
        let '(neg, r1) := read_sign r in
        match read_digits 0 0 r1 with
        | (_, O, _) => None
        | (e, _, EmptyString) => Some (if neg then - e else e)%Z
        | _ => None
        end
      else None
  end.

(** [m * 10^e] as a rational. *)
Definition scale10 (m e : Z) : Q :=
  if (0 <=? e)%Z then inject_Z (m * 10 ^ e)
  else (m # Z.to_pos (10 ^ (- e))).

(** digits [. digits] [exponent], with at least one digit before the
    exponent. *)
Definition read_decimal (s : string) : option Q :=
  let '(ipart, ilen, r1) := read_digits 0 0 s in
  let '(mant, flen, r2) :=
    match r1 with
    | String "."%char r => read_digits ipart 0 r
    | _ => (ipart, O, r1)
    end in
  match (ilen + flen)%nat with
  | O => None
  | _ =>
      match read_exponent r2 with
      | Some e => Some (scale10 mant (e - Z.of_nat flen))
      | None => None
      end
  end.

(** [float(s)] for a string: [None] stands for ValueError. *)
Definition py_float (s : string) : option pyfloat :=
  let s := float_rstrip (float_lstrip s) in
  if underscores_ok None s then
    let '(neg, body) := read_sign (remove_underscores s) in
    let word := lower_string body in
    if ((word =? "inf") || (word =? "infinity"))%string then Some (inf neg)
    else if (word =? "nan")%string then Some nan
    else
      match read_decimal body with
      | Some q => Some (binary64 (if neg then - q else q))
      | None => None
      end
  else None.

(** ** Dictionaries

    A Python [dict] with [str] keys: insertion-ordered, one entry per key. *)

Definition dict (V : Type) : Type := list (string * V).

(** [d.get(k)] / [d[k]] *)
Fixpoint dict_get {V} (d : dict V) (k : string) : option V :=
  match d with
  | [] => None
  | (k', v) :: r => if (k' =? k)%string then Some v else dict_get r k
  end.

(** [k in d] *)
Definition dict_mem {V} (d : dict V) (k : string) : bool :=
  match dict_get d k with Some _ => true | None => false end.

(** [d[k] = v]: an existing key keeps its place and gets the new value, a
    new key goes to the end. *)
Fixpoint dict_set {V} (d : dict V) (k : string) (v : V) : dict V :=
  match d with
  | [] => [(k, v)]
  | (k', v') :: r =>
      if (k' =? k)%string then (k', v) :: r else (k', v') :: dict_set r k v
  end.

Definition keys {V} (d : dict V) : list string := map fst d.
Definition values {V} (d : dict V) : list V := map snd d.
Definition items {V} (d : dict V) : list (string * V) := d.

(** [sorted(l, key=lambda x: x[1], reverse=True)]: a stable sort on the
    second component, largest first; equal keys keep their order. *)
Fixpoint insert_desc (x : string * Z) (l : list (string * Z)) : list (string * Z) :=
  match l with
  | [] => [x]
  | y :: r => if (snd y <=? snd x)%Z then x :: l else y :: insert_desc x r
  end.

Definition sorted_by_value_reverse (l : list (string * Z)) : list (string * Z) :=
  fold_right insert_desc [] l.

(** ** Grade boundaries *)

Definition GRADE_BOUNDARIES : dict Z :=
  [("A", 90%Z); ("B", 80%Z); ("C", 70%Z); ("D", 60%Z); ("F", 0%Z)].

(** ** Core logic functions *)

(** The [for grade, lower in ...: if avg >= lower: return grade] loop;
    [None] when the loop runs to its end. *)
Fixpoint scan_boundaries (bounds : list (string * Z)) (avg : pyfloat) : option string :=
  match bounds with
  | [] => None
  | (grade, lower) :: r =>
      if float_ge avg (of_int lower) then Some grade else scan_boundaries r avg
  end.

Definition get_grade (average_score : option pyfloat) : string :=
  match average_score with
  | None => "N/A"
  | Some avg =>
      if float_gt avg (of_int 100) then "A+"
      else if float_lt avg (of_int 0) then "F"
      else
        match scan_boundaries (sorted_by_value_reverse (items GRADE_BOUNDARIES)) avg with
        | Some grade => grade
        | None => "N/A"
        end
  end.

(** [sum(float(v) for v in vs)]: starts from the integer 0 and adds the
    values in the order of the dictionary. *)
Definition float_sum (vs : list pyfloat) : pyfloat :=
  fold_left float_add vs (of_int 0).

Definition calculate_average (marks : dict pyfloat) : pyfloat :=
  match marks with
  | [] => finite 0
  | _ => float_div_count (float_sum (values marks)) (length marks)
  end.

(** ** Data storage *)

(** Address of a marks dictionary in the object store. *)
Definition loc : Type := nat.

(** A value of [student_records]:
    [{'marks': ..., 'average': ..., 'grade': ...}]. *)
Record student_record : Type := mk_record {
  marks : loc;
  average : pyfloat;
  grade : string
}.

(** The module-level variables, and the store of marks dictionaries they
    refer to.  [student_records] is bound once and only updated in place,
    so it is kept by value. *)
Record state : Type := mk_state {
  store : list (dict pyfloat);
  student_records : dict student_record;
  current_student_marks : loc;
  current_student_name : string
}.

(** The dictionary at an address. *)
Definition deref (h : list (dict pyfloat)) (l : loc) : dict pyfloat :=
  default [] (h !! l).

(** A new dictionary object: it gets the next free address. *)
Definition alloc (h : list (dict pyfloat)) (d : dict pyfloat)
  : list (dict pyfloat) * loc :=
  (h ++ [d], length h).

(** The state when the module has been loaded: both dictionaries empty,
    no name. *)
Definition initial_state : state :=
  {| store := [[]]; student_records := []; current_student_marks := 0%nat;
     current_student_name := "" |}.

(** The marks of the session in progress. *)
Definition session_marks (st : state) : dict pyfloat :=
  deref (store st) (current_student_marks st).

(** ** Message boxes *)

Inductive dialog : Type :=
| ErrEnterName
    (* showerror("Input Error", "Please enter the student's name first.") *)
| ErrStartFirst
    (* showerror("Error", "Please click '1. Start New Student / Confirm Name' first.") *)
| ErrEmptyField
    (* showerror("Input Error", "Module name and Mark cannot be empty.") *)
| ErrNotNumeric
    (* showerror("Input Error", "Mark must be a numeric value.") *)
| ErrOutOfRange
    (* showerror("Input Error", "Mark must be between 0 and 100.") *)
| ErrNoSession
    (* showerror("Error", "No student session started.") *)
| ErrNoMarks
    (* showerror("Error", "Please add at least one module mark.") *)
| WarnIncomplete
    (* showwarning("Incomplete Data", "Start a student session and add at
       least one mark to view the live calculation.") *)
| WarnOverwritten (module : string) (old new : pyfloat)
    (* showwarning("Warning", "Module '..' updated. Mark overwritten from .. to ..") *)
| InfoSessionStarted (name : string)
    (* showinfo("Session Started", "Starting module entry for ..") *)
| InfoSaved (name : string) (avg : pyfloat) (grade : string)
    (* showinfo("Success", "Record saved for ..: Average: .., Grade: ..") *)
| InfoLive (name : string) (avg : pyfloat) (grade : string).
    (* showinfo("Live Grade for ..", "Average Score: .. Assigned Grade: ..") *)

(** The names the specification gives to the validation failures. *)
Inductive error_kind : Type :=
| EmptyName | EmptyField | NotNumeric | OutOfRange | NoActiveSession | NoMarks.

Definition error_of (d : dialog) : option error_kind :=
  match d with
  | ErrEnterName => Some EmptyName
  | ErrStartFirst => Some NoActiveSession
  | ErrEmptyField => Some EmptyField
  | ErrNotNumeric => Some NotNumeric
  | ErrOutOfRange => Some OutOfRange
  | ErrNoSession => Some NoActiveSession
  | ErrNoMarks => Some NoMarks
  | WarnIncomplete => Some NoActiveSession
  | WarnOverwritten _ _ _ | InfoSessionStarted _ | InfoSaved _ _ _
  | InfoLive _ _ _ => None
  end.

(** The failure reported by a callback, if any. *)
Definition failure (ds : list dialog) : option error_kind :=
  match ds with
  | d :: _ => error_of d
  | [] => None
  end.

(** ** GUI logic functions *)

(** A callback returns the new state and the message boxes it showed. *)
Definition callback : Type := state -> state * list dialog.

Definition clear_all_fields : callback := fun st =>
  let '(h, l) := alloc (store st) [] in
  ({| store := h; student_records := student_records st;
      current_student_marks := l; current_student_name := "" |}, []).

Definition start_new_student_session (txtName : string) : callback := fun st =>
  let name := strip txtName in
  if (name =? "")%string then (st, [ErrEnterName])
  else if negb (name =? current_student_name st)%string then
    let '(h, l) := alloc (store st) [] in
    ({| store := h; student_records := student_records st;
        current_student_marks := l; current_student_name := name |},
     [InfoSessionStarted name])
  else
    ({| store := store st; student_records := student_records st;
        current_student_marks := current_student_marks st;
        current_student_name := name |}, []).

Definition add_module_mark (txtModule txtMark : string) : callback := fun st =>
  if (current_student_name st =? "")%string then (st, [ErrStartFirst])
  else
    let module := strip txtModule in
    let mark_input := strip txtMark in
    if (module =? "")%string || (mark_input =? "")%string
    then (st, [ErrEmptyField])
    else
      match py_float mark_input with
      | None => (st, [ErrNotNumeric])
      | Some mark =>
          if negb (float_le (of_int 0) mark && float_le mark (of_int 100))
          then (st, [ErrOutOfRange])
          else
            let d := session_marks st in
            let warning :=
              match dict_get d module with
              | Some old => [WarnOverwritten module old mark]
              | None => []
              end in
            ({| store := <[current_student_marks st := dict_set d module mark]> (store st);
                student_records := student_records st;
                current_student_marks := current_student_marks st;
                current_student_name := current_student_name st |}, warning)
      end.

Definition finalize_student : callback := fun st =>
  if (current_student_name st =? "")%string then (st, [ErrNoSession])
  else
    match session_marks st with
    | [] => (st, [ErrNoMarks])
    | _ =>
        let avg := calculate_average (session_marks st) in
        let grade := get_grade (Some avg) in
        let '(h, copy) := alloc (store st) (session_marks st) in
        let saved :=
          {| store := h;
             student_records :=
               dict_set (student_records st) (current_student_name st)
                 {| marks := copy; average := avg; grade := grade |};
             current_student_marks := current_student_marks st;
             current_student_name := current_student_name st |} in
        (fst (clear_all_fields saved),
         [InfoSaved (current_student_name st) avg grade])
    end.

Definition view_live_report : callback := fun st =>
  if (current_student_name st =? "")%string
  then (st, [WarnIncomplete])
  else
    match session_marks st with
    | [] => (st, [WarnIncomplete])
    | _ =>
        let avg := calculate_average (session_marks st) in
        let grade := get_grade (Some avg) in
        (st, [InfoLive (current_student_name st) avg grade])
    end.

(** ** Runs of the program: the buttons being clicked *)

Inductive action : Type :=
| StartSession (txtName : string)
| AddMark (txtModule txtMark : string)
| Finalize
| ViewLive
| ClearAll.

Definition perform (a : action) : callback :=
  match a with
  | StartSession n => start_new_student_session n
  | AddMark m k => add_module_mark m k
  | Finalize => finalize_student
  | ViewLive => view_live_report
  | ClearAll => clear_all_fields
  end.

Definition run (acts : list action) (st : state) : state :=
  fold_left (fun s a => fst (perform a s)) acts st.

Definition reachable (st : state) : Prop :=
  exists acts, st = run acts initial_state.

(** What the rest of the program can see of a state: the roster and the
    session with every address replaced by the dictionary it names. *)
Definition record_view (h : list (dict pyfloat)) (r : student_record)
  : dict pyfloat * pyfloat * string :=
  (deref h (marks r), average r, grade r).

Definition roster_view (st : state) : dict (dict pyfloat * pyfloat * string) :=
  map (fun entry => (fst entry, record_view (store st) (snd entry)))
      (student_records st).

Definition view (st : state)
  : dict (dict pyfloat * pyfloat * string) * string * dict pyfloat :=
  (roster_view st, current_student_name st, session_marks st).

(** ** Reference definitions, in the words of the specification *)

(** Python's [==] on floats. *)
Definition float_eqb (x y : pyfloat) : bool :=
  match x, y with
  | finite a, finite b => Qeq_bool a b
  | inf s, inf t => Bool.eqb s t
  | _, _ => false
  end.

(** [0 <= mark <= 100] *)
Definition in_range (mark : pyfloat) : bool :=
  float_le (of_int 0) mark && float_le mark (of_int 100).

(** The boundary table, from the highest minimum to the lowest. *)
Definition boundary_table : list (string * Q) :=
  [("A", 90); ("B", 80); ("C", 70); ("D", 60); ("F", 0)]%Q.

(** grade(average): absent gives "N/A", above 100 gives "A+", below 0
    gives "F", otherwise the first grade of the table whose minimum is at
    most the average, and "N/A" when there is none. *)
Definition grade_reference (average : option pyfloat) : string :=
  match average with
  | None => "N/A"
  | Some avg =>
      if float_lt (finite 100) avg then "A+"
      else if float_lt avg (finite 0) then "F"
      else
        match find (fun entry => float_le (finite (snd entry)) avg) boundary_table with
        | Some entry => fst entry
        | None => "N/A"
        end
  end.

(** [g] is the first grade of [bounds] whose minimum is at most [avg]. *)
Definition first_match (bounds : list (string * Z)) (avg : pyfloat) (g : string) : Prop :=
  exists before lower after,
    bounds = before ++ (g, lower) :: after
    /\ float_le (of_int lower) avg = true
    /\ Forall (fun entry => float_le (of_int (snd entry)) avg = false) before.

(** Sum and mean of rationals, written without an accumulator. *)
Definition Qsum (qs : list Q) : Q := fold_right Qplus 0%Q qs.

Definition mean (qs : list Q) : Q := (Qsum qs / inject_Z (Z.of_nat (length qs)))%Q.

(** A marks dictionary all of whose values are finite. *)
Definition finite_marks (ms : dict Q) : dict pyfloat :=
  map (fun entry => (fst entry, finite (snd entry))) ms.




(** How far rounding to binary64 moves a number [q] between 0 and 2^53, at
    most: half a unit in the last place, which is no more than [q / 2^53],
    or [2^-1075] for the smallest numbers. *)
Definition rounding_error (q : Q) : Q := (q * (1 # 2 ^ 53) + (1 # 2 ^ 1075))%Q.

(** The distance there can be between the average of [n] marks within
    [0,100] and their mean: [(n + 1) / 2^46]. *)
Definition mean_error (n : nat) : Q := (Z.of_nat n + 1) # 2 ^ 46.


(** ** Invariants of the data storage *)

(** Every address in use names an object of the store, and no roster
    record shares its marks dictionary with the session. *)
Definition well_formed (st : state) : Prop :=
  (current_student_marks st < length (store st))%nat
  /\ Forall (fun entry =>
               (marks (snd entry) < length (store st))%nat
               /\ marks (snd entry) <> current_student_marks st)
            (student_records st).

(** ModuleMarks: every mark is within [0,100]. *)
Definition marks_in_range (d : dict pyfloat) : Prop :=
  Forall (fun entry => in_range (snd entry) = true) d.

Definition letter_grades : list string := ["A"; "B"; "C"; "D"; "F"].

(** What holds of a roster record [r] stored under [name]. *)
Definition record_ok (st : state) (name : string) (r : student_record) : Prop :=
  let d := deref (store st) (marks r) in
  name <> ""
  /\ d <> []
  /\ marks_in_range d
  /\ average r = calculate_average d
  /\ grade r = get_grade (Some (average r)).

Definition roster_ok (st : state) : Prop :=
  forall name r, In (name, r) (student_records st) -> record_ok st name r.

(** The invariant kept by every callback. *)
Definition invariant (st : state) : Prop :=
  well_formed st
  /\ NoDup (keys (session_marks st))
  /\ marks_in_range (session_marks st)
  /\ (current_student_name st = "" -> session_marks st = [])
  /\ roster_ok st.

(** ** Sequences of writes to the marks of the session *)

(** The entry [w] is what a valid call [c] of add_module_mark writes: the
    stripped module name and the parsed mark. *)
Definition writes_of (c : string * string) (w : string * pyfloat) : Prop :=
  strip (fst c) = fst w /\ fst w <> ""
  /\ strip (snd c) <> ""
  /\ py_float (strip (snd c)) = Some (snd w)
  /\ in_range (snd w) = true.

Definition apply_writes (d : dict pyfloat) (ws : list (string * pyfloat)) : dict pyfloat :=
  fold_left (fun acc w => dict_set acc (fst w) (snd w)) ws d.

(** The value of the last write to [k], if there is one. *)
Definition last_write (ws : list (string * pyfloat)) (k : string) : option pyfloat :=
  fold_left (fun acc w => if (fst w =? k)%string then Some (snd w) else acc) ws None.

Definition add_marks (calls : list (string * string)) : list action :=
  map (fun c => AddMark (fst c) (snd c)) calls.

Definition distinct (names : list string) : list string := remove_dups names.

(** The mark parses as a finite number. *)
Definition parses_finite (mark_input : string) : Prop :=
  exists q, py_float mark_input = Some (finite q).

(** ** The callbacks on what can be seen of a state

    The same callbacks with every dictionary held by value: what each one
    does to the roster contents, the session name and the session marks. *)

Definition view_step (a : action)
    (v : dict (dict pyfloat * pyfloat * string) * string * dict pyfloat)
  : dict (dict pyfloat * pyfloat * string) * string * dict pyfloat :=
  let '(roster, name, session) := v in
  match a with
  | StartSession txtName =>
      let n := strip txtName in
      if (n =? "")%string then v
      else if negb (n =? name)%string then (roster, n, [])
      else v
  | AddMark txtModule txtMark =>
      if (name =? "")%string then v
      else if ((strip txtModule =? "") || (strip txtMark =? ""))%string then v
      else
        match py_float (strip txtMark) with
        | None => v
        | Some mark =>
            if in_range mark
            then (roster, name, dict_set session (strip txtModule) mark)
            else v
        end
  | Finalize =>
      if (name =? "")%string then v
      else
        match session with
        | [] => v
        | _ =>
            (dict_set roster name
               (session, calculate_average session,
                get_grade (Some (calculate_average session))),
             "", [])
        end
  | ViewLive => v
  | ClearAll => (roster, "", [])
  end.

(** The message boxes shown along a run, one list per action. *)
Fixpoint dialogs (acts : list action) (st : state) : list (list dialog) :=
  match acts with
  | [] => []
  | a :: rest => snd (perform a st) :: dialogs rest (fst (perform a st))
  end.

(** A stored name: not empty, and without white space at either end. *)
Definition trimmed (s : string) : Prop := s <> "" /\ strip s = s.

(** The names held in a view are trimmed and, within one dictionary,
    distinct. *)
Definition names_ok
    (v : dict (dict pyfloat * pyfloat * string) * string * dict pyfloat) : Prop :=
  let '(roster, name, session) := v in
  strip name = name
  /\ Forall trimmed (keys session)
  /\ NoDup (keys session)
  /\ Forall trimmed (keys roster)
  /\ NoDup (keys roster)
  /\ Forall (fun entry => Forall trimmed (keys (fst (fst (snd entry))))
                          /\ NoDup (keys (fst (fst (snd entry)))))
            roster.

(** ** The summary report: tags and grading scale *)

(** The tag that colours the grade of a report row. *)
Inductive tag : Type := high_grade | mid_grade | low_grade.

(** [if grade in ['A', 'A+']: .. elif grade in ['B', 'C']: .. else: ..] *)
Definition grade_tag (grade : string) : tag :=
  if ((grade =? "A") || (grade =? "A+"))%string then high_grade
  else if ((grade =? "B") || (grade =? "C"))%string then mid_grade
  else low_grade.

(** The lines of the grading scale: for the entry of index [i] of the
    sorted boundaries, the grade, its lower bound, and as upper bound 100
    for the first entry and otherwise the lower bound of the entry before
    it, less one (the index [i - 1] is always within the list). *)
Definition grading_scale : list (string * Z * Z) :=
  let sorted_boundaries := sorted_by_value_reverse (items GRADE_BOUNDARIES) in
  imap (fun i entry =>
          (fst entry, snd entry,
           match i with
           | O => 100%Z
           | S j => (snd (default entry (sorted_boundaries !! j)) - 1)%Z
           end))
       sorted_boundaries.

(** ** Text of the summary report *)

Definition newline : string := String (ascii_of_N 10) "".

(** [s * n] *)
Fixpoint repeat_string (s : string) (n : nat) : string :=
  match n with
  | O => ""
  | S m => s ++ repeat_string s m
  end.

(** The format [:<width]: left-aligned, filled with spaces up to [width]. *)
Definition ljust (s : string) (width : nat) : string :=
  s ++ repeat_string " " (width - String.length s).

Definition digit_char (d : Z) : ascii := ascii_of_N (Z.to_N (48 + d)).

(** The decimal digits of [n >= 0] in front of [acc]; [fuel] bounds the
    number of digits. *)
Fixpoint digits_fuel (fuel : nat) (n : Z) (acc : string) : string :=
  match fuel with
  | O => acc
  | S f =>
      let acc' := String (digit_char (n mod 10)) acc in
      if (n / 10 =? 0)%Z then acc' else digits_fuel f (n / 10) acc'
  end.

Definition digits (n : Z) : string :=
  digits_fuel (S (Z.to_nat (Z.log2 n))) n "".

(** [str(z)] for an integer. *)
Definition str_int (z : Z) : string :=
  if (z <? 0)%Z then "-" ++ digits (- z) else digits z.

(** The format [.2f]: two decimals, the nearest ones, ties to even. *)
Definition format_2f (x : pyfloat) : string :=
  match x with
  | nan => "nan"
  | inf false => "inf"
  | inf true => "-inf"
  | finite q =>
      let n := round_half_even (Z.abs (Qnum q) * 100) (Z.pos (Qden q)) in
      (if (Qnum q <? 0)%Z then "-" else "")
      ++ digits (n / 100) ++ "."
      ++ String (digit_char (n mod 100 / 10)) (String (digit_char (n mod 10)) "")
  end.

(** [s.split()]: the maximal runs of characters that are not white space;
    [word] is the run being read. *)
Fixpoint split_from (word s : string) : list string :=
  match s with
  | EmptyString => if (word =? "")%string then [] else [word]
  | String c r =>
      if isspace c
      then if (word =? "")%string then split_from "" r
           else word :: split_from "" r
      else split_from (word ++ String c "") r
  end.

Definition split (s : string) : list string := split_from "" s.

(** Whether a string holds a white space character. *)
Fixpoint has_space (s : string) : bool :=
  match s with
  | EmptyString => false
  | String c r => isspace c || has_space r
  end.

(** Reading [s] as [split] does, with [word] the run being read: the words
    completed within [s], and the run in progress at its end. *)
Fixpoint split_state (word s : string) : list string * string :=
  match s with
  | EmptyString => ([], word)
  | String c r =>
      if isspace c
      then if (word =? "")%string then split_state "" r
           else (word :: fst (split_state "" r), snd (split_state "" r))
      else split_state (word ++ String c "") r
  end.

(** A student name that makes [line.split()[3]] fail: too long for its
    column and in one piece. *)
Definition breaks_report (name : string) : Prop :=
  (15 <= String.length name)%nat /\ has_space name = false.

(** What update_summary_list does to the text widget. *)
Inductive text_op : Type :=
| delete_all                                  (* summaryList.delete(1.0, END) *)
| insert (text : string) (tags : option string)  (* summaryList.insert(END, ..) *)
| tag_add (t : tag) (chars : nat).
    (* summaryList.tag_add(t, index("end-1c linestart + <chars> chars"),
                              index("end-1c lineend")) *)

(** How a call ends. *)
Inductive outcome : Type := returned | IndexError.

(** The line of a record:
    [f"{name:<15}{modules:<10}{avg:<10.2f}{grade:<8}\n"]. *)
Definition report_line (name : string) (modules : nat) (avg : pyfloat)
    (grade : string) : string :=
  ljust name 15 ++ ljust (str_int (Z.of_nat modules)) 10
  ++ ljust (format_2f avg) 10 ++ ljust grade 8 ++ newline.

(** The body of the loop over [student_records.items()] for one record:
    the line is inserted, then [line.split()[3]] is looked up. *)
Definition report_row (h : list (dict pyfloat)) (entry : string * student_record)
  : list text_op * outcome :=
  let name := fst entry in
  let data := snd entry in
  let avg := average data in
  let grade := grade data in
  let modules := length (deref h (marks data)) in
  let tag := grade_tag grade in
  let line := report_line name modules avg grade in
  match split line !! 3%nat with
  | Some word => ([insert line None; tag_add tag (String.length word)], returned)
  | None => ([insert line None], IndexError)
  end.

(** The loop: it stops at the first record that raises. *)
Fixpoint report_rows (h : list (dict pyfloat)) (records : dict student_record)
  : list text_op * outcome :=
  match records with
  | [] => ([], returned)
  | entry :: rest =>
      match report_row h entry with
      | (ops, returned) =>
          let '(ops', out) := report_rows h rest in (ops ++ ops', out)
      | (ops, IndexError) => (ops, IndexError)
      end
  end.

Definition scale_line (line : string * Z * Z) : text_op :=
  let '(g, lb, upper) := line in
  insert ("   " ++ g ++ ": " ++ str_int lb ++ " - " ++ str_int upper ++ newline)%string
         None.

Definition update_summary_list (st : state) : list text_op * outcome :=
  match student_records st with
  | [] =>
      ([delete_all; insert (newline ++ "No student data entered yet.")%string None],
       returned)
  | _ =>
      let header :=
        (ljust "Student" 15 ++ ljust "Modules" 10 ++ ljust "Average" 10
         ++ ljust "Grade" 8 ++ newline)%string in
      let start :=
        [delete_all; insert header (Some "header");
         insert (repeat_string "-" 45 ++ newline)%string (Some "separator")] in
      match report_rows (store st) (student_records st) with
      | (rows, IndexError) => (start ++ rows, IndexError)
      | (rows, returned) =>
          (start ++ rows
           ++ [insert (newline ++ repeat_string "=" 45 ++ newline)%string
                      (Some "separator");
               insert ("Grading Scale:" ++ newline)%string (Some "separator")]
           ++ map scale_line grading_scale,
           returned)
      end
  end.

(** ** Sessions used as examples *)

Definition alice_named : state := run [StartSession "Alice"] initial_state.

Definition alice_one_mark : state :=
  run [StartSession "Alice"; AddMark "Math" "80"] initial_state.

Definition alice_two_marks : state :=
  run [StartSession "Alice"; AddMark "Math" "80"; AddMark "Eng" "90"] initial_state.

Definition alice_saved : state := run [Finalize] alice_two_marks.

Definition zoe_two_marks : state :=
  run [StartSession "Zoe"; AddMark "Quiz1" "55"; AddMark "Quiz2" "65"] initial_state.




Definition long_name_session : state :=
  run [StartSession "Bartholomew-Smith"; AddMark "Math" "80"] alice_saved.

(** * Properties *)

#[local] Arguments float_le : simpl never.
#[local] Arguments float_lt : simpl never.
#[local] Arguments float_ge : simpl never.
#[local] Arguments float_gt : simpl never.
#[local] Arguments of_int : simpl never.
#[local] Arguments in_range : simpl never.
#[local] Arguments get_grade : simpl never.
#[local] Arguments calculate_average : simpl never.

(** ** Grading policy *)

Lemma sorted_boundaries :
  sorted_by_value_reverse (items GRADE_BOUNDARIES)
  = [("A", 90%Z); ("B", 80%Z); ("C", 70%Z); ("D", 60%Z); ("F", 0%Z)].
Proof. reflexivity. Qed.

Lemma scan_boundaries_first bounds avg g :
  scan_boundaries bounds avg = Some g <-> first_match bounds avg g.
Proof.
  unfold first_match. induction bounds as [|[g' lo] r IH]; simpl; unfold float_ge.
  - split; [discriminate|]. intros (b & lo & a & E & _). destruct b; discriminate.
  - destruct (float_le (of_int lo) avg) eqn:Hle.
    + split.
      * intros [= <-]. exists [], lo, r. auto.
      * intros ([|[g0 l0] b] & lo' & a & E & Hlo & Hb); simpl in E.
        -- congruence.
        -- injection E as -> -> _. inversion Hb; subst; simpl in *. congruence.
    + rewrite IH. split.
      * intros (b & lo' & a & -> & Hlo & Hb).
        exists ((g', lo) :: b), lo', a. repeat split; auto.
      * intros ([|[g0 l0] b] & lo' & a & E & Hlo & Hb); simpl in E.
        -- injection E as -> -> _. congruence.
        -- injection E as -> -> ->. inversion Hb; subst. eauto 6.
Qed.

Lemma in_range_inv avg :
  in_range avg = true ->
  exists q, avg = finite q /\ (0 <= q)%Q /\ (q <= 100)%Q.
Proof.
  unfold in_range, float_le, of_int.
  destruct avg as [q|[]|]; simpl; try discriminate.
  rewrite andb_true_iff, !Qle_bool_iff. eauto.
Qed.

Lemma in_range_finite q :
  in_range (finite q) = true <-> (0 <= q)%Q /\ (q <= 100)%Q.
Proof.
  unfold in_range, float_le, of_int. simpl.
  now rewrite andb_true_iff, !Qle_bool_iff.
Qed.

Lemma in_range_guards avg :
  in_range avg = true ->
  float_gt avg (of_int 100) = false /\ float_lt avg (of_int 0) = false.
Proof.
  unfold in_range, float_gt, float_lt, float_le, of_int, Qlt_bool.
  destruct avg as [q|[]|]; simpl; try discriminate.
  rewrite andb_true_iff. intros [-> ->]. auto.
Qed.

(** A table with an entry whose minimum is 0 catches every average that
    is not below 0. *)
Lemma scan_boundaries_total bounds avg :
  (exists g, In (g, 0%Z) bounds) ->
  float_le (of_int 0) avg = true ->
  exists g, scan_boundaries bounds avg = Some g.
Proof.
  intros [g0 Hin] H0. induction bounds as [|[g lo] r IH]; [destruct Hin|].
  cbn [scan_boundaries]. unfold float_ge.
  destruct (float_le (of_int lo) avg) eqn:Hlo; [eauto|].
  destruct Hin as [[= -> ->]|Hin]; [congruence|auto].
Qed.

Lemma first_match_In bounds avg g :
  first_match bounds avg g ->
  exists lower, In (g, lower) bounds /\ float_le (of_int lower) avg = true.
Proof.
  intros (b & lo & a & -> & Hlo & _). exists lo. split; [|exact Hlo].
  apply in_or_app. right. now left.
Qed.

Lemma get_grade_in_range avg :
  in_range avg = true ->
  scan_boundaries (sorted_by_value_reverse (items GRADE_BOUNDARIES)) avg
  = Some (get_grade (Some avg)).
Proof.
  intros Hr. unfold get_grade.
  destruct (in_range_guards _ Hr) as [-> ->].
  destruct (scan_boundaries_total
              (sorted_by_value_reverse (items GRADE_BOUNDARIES)) avg) as [g ->].
  - exists "F". rewrite sorted_boundaries. simpl. auto 6.
  - unfold in_range in Hr. now apply andb_true_iff in Hr.
  - reflexivity.
Qed.

(** C1: [get_grade] equals the reference definition of the specification
    on every input (absent gives "N/A", above 100 gives "A+", below 0 gives
    "F", otherwise the first grade, from the highest minimum down, whose
    minimum is at most the average); within [0,100] the result is the
    first matching entry of the sorted table; and the listed inputs get
    the listed grades. *)
Theorem get_grade_reference :
  (forall average, get_grade average = grade_reference average)
  /\ (forall avg, in_range avg = true ->
       first_match (sorted_by_value_reverse (items GRADE_BOUNDARIES)) avg
                   (get_grade (Some avg)))
  /\ map (fun q => get_grade (Some (finite q)))
         [0; 59.999; 60; 69.999; 70; 79.999; 80; 89.999; 90; 100]%Q
     = ["F"; "F"; "D"; "D"; "C"; "C"; "B"; "B"; "A"; "A"]
  /\ get_grade (Some (finite 100.5)) = "A+"
  /\ get_grade (Some (finite (-5))) = "F"
  /\ get_grade None = "N/A".
Proof.
  split; [|split; [|repeat split]].
  - intros [[q|[]|]|]; try reflexivity.
    unfold get_grade, grade_reference. rewrite sorted_boundaries.
    unfold boundary_table. cbn [scan_boundaries find snd fst].
    unfold float_gt, float_ge, float_lt, float_le, of_int, inject_Z.
    repeat match goal with
           | |- context [Qlt_bool ?a ?b] => destruct (Qlt_bool a b)
           | |- context [Qle_bool ?a ?b] => destruct (Qle_bool a b)
           end; reflexivity.
  - intros avg Hr. apply scan_boundaries_first. now apply get_grade_in_range.
Qed.

Lemma get_grade_reference_witness :
  in_range (finite 60) = true
  /\ first_match (sorted_by_value_reverse (items GRADE_BOUNDARIES)) (finite 60)
                 (get_grade (Some (finite 60))).
Proof.
  split; [reflexivity|].
  exact (proj1 (proj2 get_grade_reference) (finite 60) eq_refl).
Defined.

(** C9: with the table A: 90, B: 80, C: 70, D: 60, F: 0 the scan of
    [get_grade] never runs off its end for an average in [0,100]: it
    returns a grade of the table whose minimum is at most the average. *)
Theorem fallthrough_unreachable avg :
  in_range avg = true ->
  exists g lower,
    scan_boundaries (sorted_by_value_reverse (items GRADE_BOUNDARIES)) avg = Some g
    /\ dict_get GRADE_BOUNDARIES g = Some lower
    /\ float_ge avg (of_int lower) = true
    /\ get_grade (Some avg) = g.
Proof.
  intros Hr. pose proof (get_grade_in_range _ Hr) as Hs.
  destruct (first_match_In _ _ _ (proj1 (scan_boundaries_first _ _ _) Hs))
    as (lo & Hin & Hlo).
  exists (get_grade (Some avg)), lo.
  split; [exact Hs|]. split; [|split; [exact Hlo|reflexivity]].
  revert Hin. generalize (get_grade (Some avg)). intros g Hin.
  rewrite sorted_boundaries in Hin. simpl in Hin.
  repeat (destruct Hin as [[= <- <-]|Hin]; [reflexivity|]). destruct Hin.
Qed.

Lemma fallthrough_unreachable_witness :
  in_range (finite 59.999) = true
  /\ exists g lower,
       scan_boundaries (sorted_by_value_reverse (items GRADE_BOUNDARIES))
                       (finite 59.999) = Some g
       /\ dict_get GRADE_BOUNDARIES g = Some lower
       /\ float_ge (finite 59.999) (of_int lower) = true
       /\ get_grade (Some (finite 59.999)) = g.
Proof.
  split; [reflexivity|].
  apply (fallthrough_unreachable (finite 59.999)). reflexivity.
Defined.

(** ** Rounding to binary64 *)

Lemma round_half_even_bounds a d m :
  (0 <= a)%Z -> (0 < d)%Z -> (a <= m * d)%Z ->
  (0 <= round_half_even a d <= m)%Z.
Proof.
  intros Ha Hd Hm. unfold round_half_even.
  pose proof (Z.div_pos a d Ha Hd) as Hq.
  pose proof (Z.mod_pos_bound a d Hd) as Hr.
  pose proof (Z.div_mod a d ltac:(lia)) as Hdm.
  assert (Hle : (a / d <= m)%Z).
  { apply Z.div_le_upper_bound; [lia|]. lia. }
  assert (Hstrict : (0 < a mod d -> a / d < m)%Z).
  { intros Hpos. destruct (Z.eq_dec (a / d)%Z m) as [E|]; [|lia].
    rewrite E in Hdm. nia. }
  destruct (2 * (a mod d) <? d)%Z eqn:E1; [lia|].
  apply Z.ltb_ge in E1.
  destruct (d <? 2 * (a mod d))%Z; [lia|].
  destruct (Z.even (a / d)); lia.
Qed.
Lemma round_half_even_near n d :
  (0 < d)%Z ->
  (2 * (round_half_even n d * d) - d <= 2 * n <= 2 * (round_half_even n d * d) + d)%Z.
Proof.
  intros Hd. unfold round_half_even.
  pose proof (Z.mod_pos_bound n d Hd) as Hr.
  pose proof (Z.div_mod n d ltac:(lia)) as Hdm.
  destruct (2 * (n mod d) <? d)%Z eqn:E1.
  - apply Z.ltb_lt in E1. nia.
  - apply Z.ltb_ge in E1. destruct (d <? 2 * (n mod d))%Z eqn:E2.
    + apply Z.ltb_lt in E2. nia.
    + apply Z.ltb_ge in E2. destruct (Z.even (n / d)); nia.
Qed.

Lemma round_half_even_exact n : round_half_even n 1 = n.
Proof.
  unfold round_half_even. rewrite Z.mod_1_r, Z.div_1_r. reflexivity.
Qed.

(** The exponent chosen by [binary64]: a power of two that is at most the
    number. *)
Lemma exponent_lower a d :
  (0 < a)%Z -> (0 < d)%Z ->
  let e0 := (Z.log2 a - Z.log2 d)%Z in
  let below :=
    if (0 <=? e0)%Z then (a <? d * 2 ^ e0)%Z else (a * 2 ^ (- e0) <? d)%Z in
  let e := if below then (e0 - 1)%Z else e0 in
  ((0 <= e)%Z -> (d * 2 ^ e <= a)%Z) /\ ((e < 0)%Z -> (d <= a * 2 ^ (- e))%Z).
Proof.
  intros Ha Hd e0 below e.
  destruct (Z.log2_spec a Ha) as [La1 La2].
  destruct (Z.log2_spec d Hd) as [Ld1 Ld2].
  pose proof (Z.log2_nonneg a) as Na. pose proof (Z.log2_nonneg d) as Nd.
  rewrite Z.pow_succ_r in La2, Ld2 by assumption.
  destruct below eqn:Eb; subst e.
  - split; intros He.
    + assert (E : (2 ^ Z.log2 a = 2 * 2 ^ Z.log2 d * 2 ^ (e0 - 1))%Z).
      { rewrite <- Z.pow_succ_r, <- Z.pow_add_r by lia. f_equal. subst e0. lia. }
      assert (0 < 2 ^ (e0 - 1))%Z by (apply Z.pow_pos_nonneg; lia). nia.
    + assert (E : (2 * 2 ^ Z.log2 d = 2 ^ Z.log2 a * 2 ^ (- (e0 - 1)))%Z).
      { rewrite <- Z.pow_succ_r, <- Z.pow_add_r by lia. f_equal. subst e0. lia. }
      assert (0 < 2 ^ (- (e0 - 1)))%Z by (apply Z.pow_pos_nonneg; lia). nia.
  - subst below. split; intros He.
    + apply Z.leb_le in He. rewrite He in Eb. now apply Z.ltb_ge in Eb.
    + apply Z.leb_gt in He. rewrite He in Eb. now apply Z.ltb_ge in Eb.
Qed.
Lemma binary64_small n d :
  (0 < n)%Z -> (n < 2 ^ 53 * Z.pos d)%Z ->
  exists K, (0 <= K <= 1074)%Z
    /\ (K < 1074 -> 2 ^ 52 * Z.pos d <= n * 2 ^ K)%Z
    /\ binary64 (n # d)
       = finite (Qred (round_half_even (n * 2 ^ K) (Z.pos d) # Z.to_pos (2 ^ K))).
Proof.
  intros Hn Hsmall. unfold binary64. cbn [Qnum Qden].
  assert (E0 : (n =? 0)%Z = false) by (apply Z.eqb_neq; lia).
  assert (Eneg : (n <? 0)%Z = false) by (apply Z.ltb_ge; lia).
  rewrite E0, Eneg, (Z.abs_eq n) by lia.
  pose proof (exponent_lower n (Z.pos d) Hn ltac:(lia)) as Hlow.
  cbv zeta in Hlow.
  set (e0 := (Z.log2 n - Z.log2 (Z.pos d))%Z) in *.
  set (below := if (0 <=? e0)%Z then (n <? Z.pos d * 2 ^ e0)%Z
                else (n * 2 ^ (- e0) <? Z.pos d)%Z) in *.
  set (e := if below then (e0 - 1)%Z else e0) in *.
  destruct Hlow as [Hlow1 Hlow2].
  assert (He : (e <= 52)%Z).
  { destruct (Z.le_gt_cases e 52) as [|Hgt]; [assumption|exfalso].
    specialize (Hlow1 ltac:(lia)).
    assert (2 ^ 53 <= 2 ^ e)%Z by (apply Z.pow_le_mono_r; lia).
    nia. }
  set (u := (Z.max e (-1022) - 52)%Z).
  assert (Hu : (-1074 <= u <= 0)%Z) by (subst u; lia).
  exists (- u)%Z.
  assert (Hpow : (0 < 2 ^ (- u))%Z) by (apply Z.pow_pos_nonneg; lia).
  assert (Hm : (0 <= round_half_even (n * 2 ^ (- u)) (Z.pos d)
                <= 2 ^ 53 * 2 ^ (- u))%Z).
  { apply round_half_even_bounds; nia. }
  split; [lia|]. split.
  - intros HK. assert (Ee : u = (e - 52)%Z) by (subst u; lia).
    destruct (Z.le_gt_cases 0 e) as [Hpos|Hneg].
    + specialize (Hlow1 Hpos).
      assert (E : (2 ^ 52 = 2 ^ (- u) * 2 ^ e)%Z).
      { rewrite <- Z.pow_add_r by lia. f_equal. lia. }
      rewrite E. nia.
    + specialize (Hlow2 Hneg).
      assert (E : (2 ^ (- u) = 2 ^ 52 * 2 ^ (- e))%Z).
      { rewrite <- Z.pow_add_r by lia. f_equal. lia. }
      rewrite E. nia.
  - assert (Hinf : forall m, (0 <= m <= 2 ^ 53 * 2 ^ (- u))%Z ->
               Qle_bool (inject_Z (2 ^ 1024)) (m # Z.to_pos (2 ^ (- u))) = false).
    { intros m Hmm. apply not_true_is_false. intros H.
      apply Qle_bool_iff in H. unfold Qle in H. cbn [Qnum Qden inject_Z] in H.
      rewrite Z2Pos.id in H by exact Hpow.
      assert (2 ^ 53 < 2 ^ 1024)%Z by (apply Z.pow_lt_mono_r; lia). nia. }
    destruct (0 <=? u)%Z eqn:Eu.
    + apply Z.leb_le in Eu. assert (u = 0%Z) by lia.
      replace u with 0%Z in *.
      change (- 0)%Z with 0%Z in *. change (2 ^ 0)%Z with 1%Z in *.
      rewrite !Z.mul_1_r in *. change (Z.to_pos 1) with 1%positive in *.
      change (inject_Z ?m) with (m # 1) at 2 3.
      now rewrite (Hinf _ Hm).
    + now rewrite (Hinf _ Hm).
Qed.
Lemma Qred_inject_Z k : Qred (inject_Z k) = inject_Z k.
Proof.
  unfold Qred, inject_Z.
  pose proof (Z.ggcd_gcd k 1) as Hg.
  pose proof (Z.ggcd_correct_divisors k 1) as Hd.
  destruct (Z.ggcd k 1) as [g [aa bb]]. cbn [fst] in Hg.
  rewrite Z.gcd_1_r in Hg. subst g. destruct Hd as [Ha Hb].
  rewrite Z.mul_1_l in Ha, Hb. now subst aa bb.
Qed.

(** Whole numbers below 2^53 are binary64 numbers. *)
Lemma binary64_inject_Z k :
  (0 <= k < 2 ^ 53)%Z -> binary64 (inject_Z k) = finite (inject_Z k).
Proof.
  intros Hk. destruct (Z.eq_dec k 0%Z) as [->|Hne]; [reflexivity|].
  destruct (binary64_small k 1 ltac:(lia) ltac:(lia)) as (K & HK & _ & E).
  unfold inject_Z at 1. rewrite E, round_half_even_exact.
  rewrite <- Qred_inject_Z. f_equal. apply Qred_complete.
  assert (0 < 2 ^ K)%Z by (apply Z.pow_pos_nonneg; lia).
  unfold Qeq, inject_Z. cbn [Qnum Qden]. rewrite Z2Pos.id by assumption. lia.
Qed.

(** Rounding a number between 0 and a whole number below 2^53 stays
    between them, and moves by at most [rounding_error]. *)
Lemma binary64_near q B :
  (0 <= q)%Q -> (q <= inject_Z B)%Q -> (B < 2 ^ 53)%Z ->
  exists r, binary64 q = finite r
            /\ (0 <= r)%Q /\ (r <= inject_Z B)%Q
            /\ (q - rounding_error q <= r)%Q /\ (r <= q + rounding_error q)%Q.
Proof.
  intros H0 HB Hsmall. destruct q as [n d].
  assert (Hn : (0 <= n)%Z) by (unfold Qle in H0; cbn in H0; lia).
  assert (HnB : (n <= B * Z.pos d)%Z) by (unfold Qle in HB; cbn in HB; lia).
  destruct (Z.eq_dec n 0%Z) as [->|Hne].
  - exists 0%Q. split; [reflexivity|]. unfold rounding_error.
    assert (E : (0 # d == 0)%Q) by reflexivity. rewrite E. clear E.
    assert (0 <= inject_Z B)%Q by (now apply Qle_trans with (0 # d)).
    assert (0 <= (1 # 2 ^ 1075))%Q by discriminate.
    repeat split; try lra.
  - destruct (binary64_small n d ltac:(lia) ltac:(nia)) as (K & HK & Hlow & E).
    set (m := round_half_even (n * 2 ^ K) (Z.pos d)) in *.
    assert (HP : (0 < 2 ^ K)%Z) by (apply Z.pow_pos_nonneg; lia).
    pose proof (round_half_even_near (n * 2 ^ K) (Z.pos d) ltac:(lia)) as Hnear.
    fold m in Hnear.
    assert (Hm : (0 <= m <= B * 2 ^ K)%Z).
    { apply round_half_even_bounds; nia. }
    eexists. split; [exact E|]. rewrite !Qred_correct.
    assert (Hhalf : ((n # d) - (1 # 2 * Z.to_pos (2 ^ K)) <= m # Z.to_pos (2 ^ K)
                     /\ m # Z.to_pos (2 ^ K) <= (n # d) + (1 # 2 * Z.to_pos (2 ^ K)))%Q).
    { unfold Qle, Qminus, Qplus, Qopp. cbn [Qnum Qden].
      rewrite !Pos2Z.inj_mul, !Z2Pos.id by exact HP. split; nia. }
    assert (Herr : ((1 # 2 * Z.to_pos (2 ^ K)) <= rounding_error (n # d))%Q).
    { unfold rounding_error.
      destruct (Z.eq_dec K 1074%Z) as [->|HK'].
      - assert (0 <= (n # d) * (1 # 2 ^ 53))%Q.
        { apply Qmult_le_0_compat; [exact H0|discriminate]. }
        assert (E1 : ((1 # 2 * Z.to_pos (2 ^ 1074)) == (1 # 2 ^ 1075))%Q) by reflexivity.
        rewrite E1. lra.
      - apply Qle_trans with ((n # d) * (1 # 2 ^ 53))%Q.
        + specialize (Hlow ltac:(lia)).
          unfold Qle, Qmult. cbn [Qnum Qden].
          rewrite !Pos2Z.inj_mul, !Z2Pos.id by exact HP.
          change (Z.pos (2 ^ 53)) with (2 * 2 ^ 52)%Z. nia.
        + assert (0 <= (1 # 2 ^ 1075))%Q by discriminate. lra. }
    repeat split.
    + unfold Qle. cbn [Qnum Qden]. lia.
    + unfold Qle, inject_Z. cbn [Qnum Qden]. rewrite Z2Pos.id by exact HP. lia.
    + lra.
    + lra.
Qed.

Lemma rounding_error_mono q q' :
  (q <= q')%Q -> (rounding_error q <= rounding_error q')%Q.
Proof.
  intros H. unfold rounding_error.
  assert ((q * (1 # 2 ^ 53) <= q' * (1 # 2 ^ 53))%Q).
  { apply Qmult_le_compat_r; [exact H|discriminate]. }
  lra.
Qed.

(** The running sum of marks within [0,100]: it stays below 100 times
    their number, and each addition moves it away from the exact sum by at
    most the rounding error at the largest sum there can be. *)
Lemma float_sum_bounds N qs : forall a j,
  (100 * N < 2 ^ 53)%Z ->
  Forall (fun q => 0 <= q /\ q <= 100)%Q qs ->
  (0 <= a)%Q -> (a <= 100 * inject_Z j)%Q ->
  (0 <= j)%Z -> (j + Z.of_nat (length qs) <= N)%Z ->
  exists s, fold_left float_add (map finite qs) (finite a) = finite s
    /\ (0 <= s)%Q
    /\ (s <= 100 * inject_Z (j + Z.of_nat (length qs)))%Q
    /\ (a + Qsum qs
         - inject_Z (Z.of_nat (length qs)) * rounding_error (100 * inject_Z N) <= s)%Q
    /\ (s <= a + Qsum qs
            + inject_Z (Z.of_nat (length qs)) * rounding_error (100 * inject_Z N))%Q.
Proof.
  induction qs as [|q qs IH]; intros a j HN Hqs Ha0 Ha1 Hj Hlen.
  - exists a. cbn [map fold_left length Qsum fold_right].
    change (Z.of_nat 0) with 0%Z. rewrite Z.add_0_r.
    change (inject_Z 0) with 0%Q. repeat split; try lra.
  - inversion Hqs as [|? ? [Hq0 Hq1] Hqs']; subst.
    cbn [length] in *. rewrite Nat2Z.inj_succ in *.
    cbn [map fold_left float_add].
    assert (Hb : (a + q <= inject_Z (100 * (j + 1)))%Q).
    { rewrite inject_Z_mult, inject_Z_plus.
      change (inject_Z 100) with 100%Q. change (inject_Z 1) with 1%Q. lra. }
    destruct (binary64_near (a + q) (100 * (j + 1)) ltac:(lra) Hb ltac:(lia))
      as (r & -> & Hr0 & Hr1 & Hr2 & Hr3).
    assert (Hr1' : (r <= 100 * inject_Z (j + 1))%Q).
    { rewrite inject_Z_mult in Hr1. exact Hr1. }
    destruct (IH r (j + 1)%Z HN Hqs' Hr0 Hr1' ltac:(lia) ltac:(lia))
      as (s & Es & Hs0 & Hs1 & Hs2 & Hs3).
    exists s. split; [exact Es|]. split; [exact Hs0|].
    assert (Herr : (rounding_error (a + q) <= rounding_error (100 * inject_Z N))%Q).
    { apply rounding_error_mono. apply Qle_trans with (100 * inject_Z (j + 1))%Q.
      - rewrite inject_Z_plus. change (inject_Z 1) with 1%Q. lra.
      - apply Qmult_le_l; [reflexivity|]. rewrite <- Zle_Qle. lia. }
    replace (j + Z.succ (Z.of_nat (length qs)))%Z
      with (j + 1 + Z.of_nat (length qs))%Z by lia.
    split; [exact Hs1|].
    assert (E : (inject_Z (Z.succ (Z.of_nat (length qs)))
                 == inject_Z (Z.of_nat (length qs)) + 1)%Q).
    { unfold Z.succ. now rewrite inject_Z_plus. }
    rewrite E. cbn [Qsum fold_right]. fold (Qsum qs). split; lra.
Qed.

(** ** Averages *)

Lemma values_finite_marks ms : values (finite_marks ms) = map finite (values ms).
Proof.
  induction ms as [|e r IH]; simpl; [reflexivity|]. f_equal. exact IH.
Qed.

Lemma float_of_count_exact n :
  (Z.of_nat n < 2 ^ 53)%Z -> float_of_count n = finite (inject_Z (Z.of_nat n)).
Proof. intros H. apply binary64_inject_Z. lia. Qed.

Lemma mean_error_bound n :
  (1 <= n)%nat ->
  (rounding_error (100 * inject_Z (Z.of_nat n)) + rounding_error 100
   <= mean_error n)%Q.
Proof.
  intros Hn. unfold rounding_error, mean_error.
  assert (H1 : (1 <= inject_Z (Z.of_nat n))%Q).
  { change 1%Q with (inject_Z 1). rewrite <- Zle_Qle. lia. }
  assert (E : ((Z.of_nat n + 1 # 2 ^ 46) == (inject_Z (Z.of_nat n) + 1) * (1 # 2 ^ 46))%Q).
  { unfold Qeq, Qmult, Qplus, inject_Z. cbn [Qnum Qden].
    rewrite !Pos.mul_1_l. lia. }
  rewrite E. clear E.
  set (x := inject_Z (Z.of_nat n)) in *.
  assert (E53 : ((1 # 2 ^ 53) == (1 # 128) * (1 # 2 ^ 46))%Q) by reflexivity.
  assert (Etiny : ((1 # 2 ^ 1075) <= (1 # 128) * (1 # 2 ^ 46))%Q) by discriminate.
  rewrite E53. set (c := (1 # 2 ^ 46)%Q) in *.
  assert (Hc : (0 <= c)%Q) by discriminate.
  assert (Hxc : (c <= x * c)%Q).
  { rewrite <- (Qmult_1_l c) at 1. apply Qmult_le_compat_r; assumption. }
  nra.
Qed.

(** The average of fewer than 2^46 marks within [0,100]: within [0,100],
    and within [mean_error] of their mean. *)
Lemma calculate_average_bounds ms :
  ms <> [] -> (Z.of_nat (length ms) < 2 ^ 46)%Z ->
  Forall (fun q => 0 <= q /\ q <= 100)%Q (values ms) ->
  exists q, calculate_average (finite_marks ms) = finite q
    /\ (0 <= q)%Q /\ (q <= 100)%Q
    /\ (mean (values ms) - mean_error (length ms) <= q)%Q
    /\ (q <= mean (values ms) + mean_error (length ms))%Q.
Proof.
  intros Hne Hlen Hms. unfold calculate_average.
  destruct (finite_marks ms) as [|e0 r0] eqn:E.
  { destruct ms; [congruence|discriminate]. }
  rewrite <- E. clear e0 r0 E.
  assert (Hl : length (finite_marks ms) = length ms)
    by (unfold finite_marks; apply length_map).
  assert (Hv : length (values ms) = length ms)
    by (unfold values; apply length_map).
  assert (Hpos : (1 <= length ms)%nat) by (destruct ms; [congruence|simpl; lia]).
  rewrite Hl. unfold float_sum. rewrite values_finite_marks.
  unfold of_int.
  destruct (float_sum_bounds (Z.of_nat (length ms)) (values ms) (inject_Z 0) 0%Z)
    as (s & -> & Hs0 & Hs1 & Hs2 & Hs3);
    [lia|exact Hms|change (inject_Z 0) with 0%Q; lra
    |change (inject_Z 0) with 0%Q; lra|lia|lia|].
  change (inject_Z 0) with 0%Q in Hs2, Hs3.
  rewrite Hv in *. rewrite Z.add_0_l in Hs1.
  unfold float_div_count. rewrite float_of_count_exact by lia.
  set (n := inject_Z (Z.of_nat (length ms))) in *.
  assert (Hn : (0 < n)%Q).
  { subst n. change 0%Q with (inject_Z 0). rewrite <- Zlt_Qlt. lia. }
  assert (Hq0 : (0 <= s / n)%Q) by (apply Qle_shift_div_l; [exact Hn|lra]).
  assert (Hq1 : (s / n <= inject_Z 100)%Q).
  { apply Qle_shift_div_r; [exact Hn|]. change (inject_Z 100) with 100%Q. lra. }
  destruct (binary64_near (s / n) 100 Hq0 Hq1 ltac:(lia))
    as (r & -> & Hr0 & Hr1 & Hr2 & Hr3).
  exists r. split; [reflexivity|]. split; [exact Hr0|]. split; [exact Hr1|].
  pose proof (rounding_error_mono _ _ Hq1) as Herr.
  change (inject_Z 100) with 100%Q in Herr.
  pose proof (mean_error_bound (length ms) Hpos) as Hbound. fold n in Hbound.
  set (E := rounding_error (100 * n)) in *.
  unfold mean. rewrite Hv. fold n.
  assert (Hlo : (Qsum (values ms) / n - E <= s / n)%Q).
  { apply (Qmult_le_l _ _ n Hn).
    assert (E1 : (n * (Qsum (values ms) / n - E) == Qsum (values ms) - n * E)%Q)
      by (field; lra).
    assert (E2 : (n * (s / n) == s)%Q) by (field; lra).
    rewrite E1, E2. lra. }
  assert (Hhi : (s / n <= Qsum (values ms) / n + E)%Q).
  { apply (Qmult_le_l _ _ n Hn).
    assert (E1 : (n * (Qsum (values ms) / n + E) == Qsum (values ms) + n * E)%Q)
      by (field; lra).
    assert (E2 : (n * (s / n) == s)%Q) by (field; lra).
    rewrite E1, E2. lra. }
  split; lra.
Qed.







(** ** Dictionaries *)

Section Dict.
Context {V : Type}.
Implicit Types (d : dict V) (k : string) (v : V).

Lemma dict_get_set_eq d k v : dict_get (dict_set d k v) k = Some v.
Proof.
  induction d as [|[k' v'] r IH]; simpl.
  - now rewrite String.eqb_refl.
  - destruct (k' =? k)%string eqn:E; simpl; rewrite E; auto.
Qed.

Lemma dict_get_set_ne d k k' v :
  k <> k' -> dict_get (dict_set d k v) k' = dict_get d k'.
Proof.
  intros Hne. induction d as [|[k0 v0] r IH]; simpl.
  - apply String.eqb_neq in Hne. now rewrite Hne.
  - destruct (k0 =? k)%string eqn:E; simpl.
    + apply String.eqb_eq in E. subst k0.
      apply String.eqb_neq in Hne. now rewrite Hne.
    + now rewrite IH.
Qed.

Lemma dict_get_In d k v : dict_get d k = Some v -> In (k, v) d.
Proof.
  induction d as [|[k' v'] r IH]; simpl; [discriminate|].
  destruct (k' =? k)%string eqn:E.
  - apply String.eqb_eq in E. intros [= ->]. left. congruence.
  - auto.
Qed.

Lemma dict_get_None d k : dict_get d k = None <-> ~ In k (keys d).
Proof.
  induction d as [|[k' v'] r IH]; simpl; [tauto|].
  destruct (k' =? k)%string eqn:E.
  - apply String.eqb_eq in E. split; [discriminate|tauto].
  - apply String.eqb_neq in E. rewrite IH. tauto.
Qed.

Lemma dict_mem_In d k : dict_mem d k = true <-> In k (keys d).
Proof.
  unfold dict_mem. destruct (dict_get d k) eqn:E.
  - split; [intros _|reflexivity].
    apply dict_get_In in E. now apply (in_map fst) in E.
  - split; [discriminate|]. now apply dict_get_None in E.
Qed.

Lemma keys_dict_set d k v :
  keys (dict_set d k v) = if dict_mem d k then keys d else keys d ++ [k].
Proof.
  unfold dict_mem. induction d as [|[k' v'] r IH]; simpl; [reflexivity|].
  destruct (k' =? k)%string eqn:E; simpl; [reflexivity|].
  rewrite IH. now destruct (dict_get r k).
Qed.

Lemma length_dict_set d k v :
  length (dict_set d k v) = if dict_mem d k then length d else S (length d).
Proof.
  rewrite <- !(length_map fst). fold (keys (dict_set d k v)) (keys d).
  rewrite keys_dict_set. destruct (dict_mem d k); [reflexivity|].
  rewrite length_app. simpl. lia.
Qed.

Lemma In_dict_set d k v e : In e (dict_set d k v) -> e = (k, v) \/ In e d.
Proof.
  induction d as [|[k' v'] r IH]; simpl.
  - intros [<-|[]]. now left.
  - destruct (k' =? k)%string eqn:E; simpl.
    + apply String.eqb_eq in E. subst k'. intros [<-|H]; auto.
    + intros [<-|H]; auto. destruct (IH H); auto.
Qed.

Lemma Forall_dict_set (P : string * V -> Prop) d k v :
  Forall P d -> P (k, v) -> Forall P (dict_set d k v).
Proof.
  intros Hd Hp. apply List.Forall_forall. intros e He.
  destruct (In_dict_set _ _ _ _ He) as [->|Hin]; [exact Hp|].
  rewrite List.Forall_forall in Hd. now apply Hd.
Qed.

Lemma NoDup_keys_dict_set d k v :
  NoDup (keys d) -> NoDup (keys (dict_set d k v)).
Proof.
  intros Hd. rewrite keys_dict_set. destruct (dict_mem d k) eqn:E; [exact Hd|].
  apply NoDup_app; repeat split.
  - exact Hd.
  - intros x Hx ->%list_elem_of_singleton.
    apply list_elem_of_In, dict_mem_In in Hx. congruence.
  - apply NoDup_singleton.
Qed.
End Dict.

(** ** The object store *)

Lemma deref_alloc_old h d l :
  (l < length h)%nat -> deref (h ++ [d]) l = deref h l.
Proof. intros Hl. unfold deref. now rewrite lookup_app_l. Qed.

Lemma deref_alloc_new h d : deref (h ++ [d]) (length h) = d.
Proof.
  unfold deref. rewrite lookup_app_r, Nat.sub_diag by reflexivity. reflexivity.
Qed.

Lemma deref_insert_eq h d l :
  (l < length h)%nat -> deref (<[l:=d]> h) l = d.
Proof. intros Hl. unfold deref. now rewrite list_lookup_insert_eq. Qed.

Lemma deref_insert_ne h d l l' :
  l <> l' -> deref (<[l:=d]> h) l' = deref h l'.
Proof. intros Hne. unfold deref. now rewrite list_lookup_insert_ne. Qed.

Lemma session_marks_mk h recs l name :
  session_marks (mk_state h recs l name) = deref h l.
Proof. reflexivity. Qed.

(** ** What each callback does when its checks pass *)

Lemma start_new_student_session_same txtName st :
  strip txtName <> "" ->
  strip txtName = current_student_name st ->
  start_new_student_session txtName st = (st, []).
Proof.
  intros Hne Heq. unfold start_new_student_session.
  apply String.eqb_neq in Hne. rewrite Hne, Heq, String.eqb_refl. simpl.
  now destruct st.
Qed.

Lemma start_new_student_session_new txtName st :
  strip txtName <> "" ->
  strip txtName <> current_student_name st ->
  start_new_student_session txtName st
  = ({| store := store st ++ [[]];
        student_records := student_records st;
        current_student_marks := length (store st);
        current_student_name := strip txtName |},
     [InfoSessionStarted (strip txtName)]).
Proof.
  intros Hne Hdiff. unfold start_new_student_session.
  apply String.eqb_neq in Hne, Hdiff. now rewrite Hne, Hdiff.
Qed.

Lemma add_module_mark_ok txtModule txtMark st mark :
  current_student_name st <> "" ->
  strip txtModule <> "" ->
  strip txtMark <> "" ->
  py_float (strip txtMark) = Some mark ->
  in_range mark = true ->
  add_module_mark txtModule txtMark st
  = ({| store := <[current_student_marks st :=
                     dict_set (session_marks st) (strip txtModule) mark]> (store st);
        student_records := student_records st;
        current_student_marks := current_student_marks st;
        current_student_name := current_student_name st |},
     match dict_get (session_marks st) (strip txtModule) with
     | Some old => [WarnOverwritten (strip txtModule) old mark]
     | None => []
     end).
Proof.
  intros Hn Hm Hk Hp Hr. unfold add_module_mark.
  apply String.eqb_neq in Hn, Hm, Hk. rewrite Hn, Hm, Hk, Hp. simpl.
  fold (in_range mark). now rewrite Hr.
Qed.

Lemma finalize_student_ok st :
  current_student_name st <> "" ->
  session_marks st <> [] ->
  finalize_student st
  = ({| store := (store st ++ [session_marks st]) ++ [[]];
        student_records :=
          dict_set (student_records st) (current_student_name st)
            {| marks := length (store st);
               average := calculate_average (session_marks st);
               grade := get_grade (Some (calculate_average (session_marks st))) |};
        current_student_marks := S (length (store st));
        current_student_name := "" |},
     [InfoSaved (current_student_name st)
                (calculate_average (session_marks st))
                (get_grade (Some (calculate_average (session_marks st))))]).
Proof.
  intros Hn Hm. unfold finalize_student.
  apply String.eqb_neq in Hn. rewrite Hn.
  destruct (session_marks st) as [|e r] eqn:E; [congruence|].
  unfold clear_all_fields, alloc. simpl.
  rewrite length_app. simpl. now rewrite Nat.add_1_r.
Qed.

(** ** Averages and grades of valid marks *)

Lemma marks_in_range_finite d :
  marks_in_range d ->
  exists ms, d = finite_marks ms
             /\ Forall (fun q => 0 <= q /\ q <= 100)%Q (values ms).
Proof.
  induction 1 as [|[k v] r Hv _ (ms & -> & Hms)].
  - exists []. split; [reflexivity|constructor].
  - simpl in Hv. destruct (in_range_inv _ Hv) as (q & -> & H0 & H100).
    exists ((k, q) :: ms). split; [reflexivity|]. constructor; auto.
Qed.

(** The average of fewer than 2^46 valid marks is within [0,100], and
    within [mean_error] of their mean. *)
Lemma calculate_average_in_range d :
  d <> [] -> marks_in_range d -> (Z.of_nat (length d) < 2 ^ 46)%Z ->
  exists ms q, d = finite_marks ms
               /\ calculate_average d = finite q
               /\ (mean (values ms) - mean_error (length d) <= q)%Q
               /\ (q <= mean (values ms) + mean_error (length d))%Q
               /\ in_range (calculate_average d) = true.
Proof.
  intros Hne Hd Hlen. destruct (marks_in_range_finite _ Hd) as (ms & -> & Hms).
  assert (Hms' : ms <> []) by (destruct ms; [simpl in Hne; congruence|discriminate]).
  assert (Hl : length (finite_marks ms) = length ms)
    by (unfold finite_marks; apply length_map).
  rewrite Hl in *.
  destruct (calculate_average_bounds ms Hms' Hlen Hms) as (q & Hq & H0 & H1 & H2 & H3).
  exists ms, q. repeat split; auto.
  rewrite Hq. now apply in_range_finite.
Qed.

Lemma get_grade_letter avg :
  in_range avg = true -> In (get_grade (Some avg)) letter_grades.
Proof.
  intros Hr.
  destruct (first_match_In _ _ _ (proj1 (scan_boundaries_first _ _ _)
                                        (get_grade_in_range _ Hr)))
    as (lo & Hin & _).
  revert Hin. generalize (get_grade (Some avg)). intros g Hin.
  rewrite sorted_boundaries in Hin. simpl in Hin. unfold letter_grades. simpl.
  intuition congruence.
Qed.

(** ** Every callback either leaves the state alone or passes its checks *)

Lemma start_new_student_session_cases txtName st :
  start_new_student_session txtName st = (st, [ErrEnterName]) /\ strip txtName = ""
  \/ strip txtName <> "" /\ strip txtName = current_student_name st
  \/ strip txtName <> "" /\ strip txtName <> current_student_name st.
Proof.
  unfold start_new_student_session.
  destruct (strip txtName =? "")%string eqn:E.
  - left. apply String.eqb_eq in E. auto.
  - right. apply String.eqb_neq in E.
    destruct (string_dec (strip txtName) (current_student_name st)); auto.
Qed.

Lemma add_module_mark_cases txtModule txtMark name :
  (exists e, error_of e <> None
             /\ forall st, current_student_name st = name ->
                           add_module_mark txtModule txtMark st = (st, [e]))
  \/ exists mark,
      name <> "" /\ strip txtModule <> ""
      /\ strip txtMark <> "" /\ py_float (strip txtMark) = Some mark
      /\ in_range mark = true.
Proof.
  unfold add_module_mark.
  destruct (name =? "")%string eqn:En.
  { left. eexists. split; [|intros st ->; rewrite En; reflexivity]. discriminate. }
  destruct (strip txtModule =? "")%string eqn:Em.
  { left. eexists. split; [|intros st ->; rewrite En; reflexivity]. discriminate. }
  destruct (strip txtMark =? "")%string eqn:Ek.
  { left. eexists. split; [|intros st ->; rewrite En; reflexivity]. discriminate. }
  simpl. destruct (py_float (strip txtMark)) as [mark|] eqn:Ep.
  2:{ left. eexists. split; [|intros st ->; rewrite En; reflexivity]. discriminate. }
  fold (in_range mark). destruct (in_range mark) eqn:Er; simpl.
  2:{ left. eexists. split; [|intros st ->; rewrite En; reflexivity]. discriminate. }
  right. exists mark. apply String.eqb_neq in En, Em, Ek. auto.
Qed.

Lemma finalize_student_cases name (d : dict pyfloat) :
  (exists e, error_of e <> None
             /\ forall st, current_student_name st = name ->
                           session_marks st = d ->
                           finalize_student st = (st, [e]))
  \/ name <> "" /\ d <> [].
Proof.
  unfold finalize_student.
  destruct (name =? "")%string eqn:En.
  { left. eexists. split; [|intros st -> _; rewrite En; reflexivity]. discriminate. }
  destruct d as [|e r].
  { left. eexists. split; [|intros st -> ->; rewrite En; reflexivity]. discriminate. }
  right. apply String.eqb_neq in En. split; [exact En|discriminate].
Qed.

Lemma view_live_report_state st : fst (view_live_report st) = st.
Proof.
  unfold view_live_report.
  destruct (current_student_name st =? "")%string; [reflexivity|].
  now destruct (session_marks st).
Qed.

(** ** The invariant holds in every reachable state *)

Lemma record_ok_store st st' name r :
  deref (store st') (marks r) = deref (store st) (marks r) ->
  record_ok st name r -> record_ok st' name r.
Proof. unfold record_ok. now intros ->. Qed.

(** Splits [invariant] into its six parts. *)
Ltac split_invariant :=
  unfold invariant, well_formed;
  split; [split|split; [|split; [|split]]].

Lemma invariant_initial : invariant initial_state.
Proof.
  split_invariant; unfold roster_ok, initial_state, session_marks, deref; simpl.
  - lia.
  - constructor.
  - constructor.
  - constructor.
  - reflexivity.
  - intros ? ? [].
Qed.

(** Binding the session to a new empty dictionary. *)
Lemma invariant_fresh_session st name :
  invariant st ->
  invariant {| store := store st ++ [[]];
               student_records := student_records st;
               current_student_marks := length (store st);
               current_student_name := name |}.
Proof.
  intros ((Hcur & Hrecs) & _ & _ & _ & Hroster).
  assert (Hnew : session_marks
                   {| store := store st ++ [[]];
                      student_records := student_records st;
                      current_student_marks := length (store st);
                      current_student_name := name |} = []).
  { unfold session_marks. simpl. apply deref_alloc_new. }
  split_invariant; rewrite ?Hnew; simpl.
  - rewrite length_app. simpl. lia.
  - eapply Forall_impl; [exact Hrecs|]. simpl. intros e [H1 H2].
    rewrite length_app. simpl. lia.
  - constructor.
  - constructor.
  - reflexivity.
  - intros n r Hin. eapply record_ok_store; [|exact (Hroster n r Hin)].
    simpl. apply deref_alloc_old.
    rewrite List.Forall_forall in Hrecs. exact (proj1 (Hrecs _ Hin)).
Qed.

Lemma invariant_clear_all_fields st :
  invariant st -> invariant (fst (clear_all_fields st)).
Proof. intros H. exact (invariant_fresh_session st "" H). Qed.

Lemma invariant_start_new_student_session txtName st :
  invariant st -> invariant (fst (start_new_student_session txtName st)).
Proof.
  intros H.
  destruct (start_new_student_session_cases txtName st)
    as [[-> _]|[[Hne Heq]|[Hne Hdiff]]].
  - exact H.
  - now rewrite start_new_student_session_same.
  - rewrite start_new_student_session_new by assumption.
    now apply invariant_fresh_session.
Qed.

Lemma invariant_add_module_mark txtModule txtMark st :
  invariant st -> invariant (fst (add_module_mark txtModule txtMark st)).
Proof.
  intros H.
  destruct (add_module_mark_cases txtModule txtMark (current_student_name st))
    as [(e & _ & E)|(mark & Hn & Hm & Hk & Hp & Hr)];
    [now rewrite (E st eq_refl)|].
  rewrite (add_module_mark_ok _ _ _ _ Hn Hm Hk Hp Hr).
  destruct H as ((Hcur & Hrecs) & Hnd & Hrange & _ & Hroster).
  split_invariant; unfold session_marks at 1; simpl;
    rewrite ?deref_insert_eq by exact Hcur; rewrite ?length_insert.
  - exact Hcur.
  - exact Hrecs.
  - now apply NoDup_keys_dict_set.
  - now apply Forall_dict_set.
  - intros E. congruence.
  - intros n r Hin. eapply record_ok_store; [|exact (Hroster n r Hin)].
    simpl. apply deref_insert_ne.
    rewrite List.Forall_forall in Hrecs. intros Heq.
    exact (proj2 (Hrecs _ Hin) (eq_sym Heq)).
Qed.

Lemma record_ok_new st name d l :
  name <> "" -> d <> [] -> marks_in_range d ->
  deref (store st) l = d ->
  record_ok st name
    {| marks := l; average := calculate_average d;
       grade := get_grade (Some (calculate_average d)) |}.
Proof.
  intros Hn Hd Hr Hl. unfold record_ok. simpl. rewrite Hl. repeat split; auto.
Qed.

Lemma invariant_finalize_student st :
  invariant st -> invariant (fst (finalize_student st)).
Proof.
  intros H.
  destruct (finalize_student_cases (current_student_name st) (session_marks st))
    as [(e & _ & E)|[Hn Hm]]; [now rewrite (E st eq_refl eq_refl)|].
  rewrite (finalize_student_ok _ Hn Hm). simpl.
  destruct H as ((Hcur & Hrecs) & Hnd & Hrange & _ & Hroster).
  unfold session_marks in *.
  set (d := deref (store st) (current_student_marks st)) in *.
  set (recs := dict_set _ _ _).
  assert (Hcopy : deref ((store st ++ [d]) ++ [[]]) (length (store st)) = d).
  { rewrite deref_alloc_old.
    - apply deref_alloc_new.
    - rewrite length_app. simpl. lia. }
  assert (Hold : forall l, (l < length (store st))%nat ->
                 deref ((store st ++ [d]) ++ [[]]) l = deref (store st) l).
  { intros l Hl.
    rewrite deref_alloc_old.
    - now apply deref_alloc_old.
    - rewrite length_app. simpl. lia. }
  assert (Hnew : deref ((store st ++ [d]) ++ [[]]) (S (length (store st))) = []).
  { pose proof (deref_alloc_new (store st ++ [d]) []) as E.
    rewrite length_app in E. simpl in E. now rewrite Nat.add_1_r in E. }
  split_invariant; unfold session_marks; cbn [store student_records
    current_student_marks current_student_name]; rewrite ?Hnew;
    rewrite ?length_app; cbn [length].
  - lia.
  - apply Forall_dict_set; simpl; [|lia].
    eapply Forall_impl; [exact Hrecs|]. simpl. intros e [H1 H2]. lia.
  - constructor.
  - constructor.
  - reflexivity.
  - intros n r Hin. unfold recs in Hin.
    destruct (In_dict_set _ _ _ _ Hin) as [[= -> ->]|Hin'].
    + apply record_ok_new; auto.
    + eapply record_ok_store; [|exact (Hroster n r Hin')].
      simpl. apply Hold.
      rewrite List.Forall_forall in Hrecs. exact (proj1 (Hrecs _ Hin')).
Qed.

Lemma invariant_perform a st : invariant st -> invariant (fst (perform a st)).
Proof.
  destruct a; simpl.
  - apply invariant_start_new_student_session.
  - apply invariant_add_module_mark.
  - apply invariant_finalize_student.
  - now rewrite view_live_report_state.
  - apply invariant_clear_all_fields.
Qed.

Lemma invariant_run acts st : invariant st -> invariant (run acts st).
Proof.
  revert st. induction acts as [|a acts IH]; intros st H; [exact H|].
  apply IH. now apply invariant_perform.
Qed.

Lemma reachable_invariant st : reachable st -> invariant st.
Proof. intros [acts ->]. apply invariant_run, invariant_initial. Qed.

(** ** Objects the session does not own are never written *)

Lemma store_frame a st l :
  (l < length (store st))%nat -> l <> current_student_marks st ->
  let st' := fst (perform a st) in
  deref (store st') l = deref (store st) l
  /\ (l < length (store st'))%nat
  /\ l <> current_student_marks st'.
Proof.
  intros Hl Hcur st'. subst st'.
  assert (Hfresh : forall name,
    let st' := {| store := store st ++ [[]];
                  student_records := student_records st;
                  current_student_marks := length (store st);
                  current_student_name := name |} in
    deref (store st') l = deref (store st) l
    /\ (l < length (store st'))%nat /\ l <> current_student_marks st').
  { intros name. simpl. rewrite length_app. simpl.
    split; [now apply deref_alloc_old|lia]. }
  destruct a as [n|m k| | |]; cbn [perform].
  - destruct (start_new_student_session_cases n st)
      as [[-> _]|[[Hne Heq]|[Hne Hdiff]]].
    + auto.
    + rewrite start_new_student_session_same by assumption. auto.
    + rewrite start_new_student_session_new by assumption.
      destruct (Hfresh (strip n)) as (H1 & H2 & H3). cbn [fst]. auto.
  - destruct (add_module_mark_cases m k (current_student_name st))
      as [(e & _ & E)|(mark & Hn & Hm & Hk & Hp & Hr)];
      [rewrite (E st eq_refl); auto|].
    rewrite (add_module_mark_ok _ _ _ _ Hn Hm Hk Hp Hr). simpl.
    rewrite length_insert. split; [|auto].
    apply deref_insert_ne. congruence.
  - destruct (finalize_student_cases (current_student_name st) (session_marks st))
      as [(e & _ & E)|[Hn Hm]]; [rewrite (E st eq_refl eq_refl); auto|].
    rewrite (finalize_student_ok _ Hn Hm). simpl. rewrite !length_app. simpl.
    split; [|lia].
    rewrite deref_alloc_old.
    + now apply deref_alloc_old.
    + rewrite length_app. simpl. lia.
  - rewrite view_live_report_state. auto.
  - apply (Hfresh "").
Qed.

(** ** What can be seen of a state after each callback *)

Lemma map_dict_set {V W} (f : V -> W) (d : dict V) k v :
  map (fun entry => (fst entry, f (snd entry))) (dict_set d k v)
  = dict_set (map (fun entry => (fst entry, f (snd entry))) d) k (f v).
Proof.
  induction d as [|[k' v'] r IH]; simpl; [reflexivity|].
  destruct (k' =? k)%string; simpl; [reflexivity|]. now rewrite IH.
Qed.

Lemma roster_view_store h st :
  Forall (fun entry => deref h (marks (snd entry))
                       = deref (store st) (marks (snd entry)))
         (student_records st) ->
  map (fun entry => (fst entry, record_view h (snd entry))) (student_records st)
  = roster_view st.
Proof.
  unfold roster_view, record_view. induction 1 as [|e r He _ IH]; simpl.
  - reflexivity.
  - now rewrite He, IH.
Qed.

Lemma view_fresh_session st name :
  well_formed st ->
  view {| store := store st ++ [[]];
          student_records := student_records st;
          current_student_marks := length (store st);
          current_student_name := name |}
  = (roster_view st, name, []).
Proof.
  intros [Hcur Hrecs]. unfold view, session_marks. simpl.
  rewrite deref_alloc_new. f_equal. f_equal.
  unfold roster_view at 1. simpl. apply roster_view_store.
  eapply Forall_impl; [exact Hrecs|]. simpl. intros e [H1 _].
  now apply deref_alloc_old.
Qed.

Lemma view_add_module_mark txtModule txtMark st mark :
  well_formed st ->
  current_student_name st <> "" ->
  strip txtModule <> "" ->
  strip txtMark <> "" ->
  py_float (strip txtMark) = Some mark ->
  in_range mark = true ->
  view (fst (add_module_mark txtModule txtMark st))
  = (roster_view st, current_student_name st,
     dict_set (session_marks st) (strip txtModule) mark).
Proof.
  intros [Hcur Hrecs] Hn Hm Hk Hp Hr.
  rewrite (add_module_mark_ok _ _ _ _ Hn Hm Hk Hp Hr).
  unfold view. cbn [fst]. rewrite session_marks_mk. cbn [current_student_name].
  rewrite deref_insert_eq by exact Hcur. f_equal. f_equal.
  unfold roster_view at 1. simpl. apply roster_view_store.
  eapply Forall_impl; [exact Hrecs|]. simpl. intros e [_ H2].
  apply deref_insert_ne. congruence.
Qed.

Lemma view_finalize_student st :
  well_formed st ->
  current_student_name st <> "" ->
  session_marks st <> [] ->
  view (fst (finalize_student st))
  = (dict_set (roster_view st) (current_student_name st)
       (session_marks st, calculate_average (session_marks st),
        get_grade (Some (calculate_average (session_marks st)))),
     "", []).
Proof.
  intros [Hcur Hrecs] Hn Hm. rewrite (finalize_student_ok _ Hn Hm).
  set (d := session_marks st).
  assert (Hold : forall l, (l < length (store st))%nat ->
                 deref ((store st ++ [d]) ++ [[]]) l = deref (store st) l).
  { intros l Hl. rewrite deref_alloc_old.
    - now apply deref_alloc_old.
    - rewrite length_app. simpl. lia. }
  assert (Hcopy : deref ((store st ++ [d]) ++ [[]]) (length (store st)) = d).
  { rewrite deref_alloc_old.
    - apply deref_alloc_new.
    - rewrite length_app. simpl. lia. }
  assert (Hnew : deref ((store st ++ [d]) ++ [[]]) (S (length (store st))) = []).
  { pose proof (deref_alloc_new (store st ++ [d]) []) as E.
    rewrite length_app in E. simpl in E. now rewrite Nat.add_1_r in E. }
  unfold view, session_marks. cbn [fst store student_records
    current_student_marks current_student_name]. rewrite Hnew.
  f_equal. f_equal. unfold roster_view at 1. cbn [store student_records].
  rewrite (map_dict_set (record_view ((store st ++ [d]) ++ [[]]))).
  unfold record_view at 2. cbn [marks average grade]. rewrite Hcopy.
  f_equal. apply roster_view_store.
  eapply Forall_impl; [exact Hrecs|]. simpl. intros e [H1 _]. now apply Hold.
Qed.

(** Two well-formed states that look the same answer every callback in
    the same way, and look the same afterwards: addresses and dictionaries
    no longer referred to play no part. *)
Lemma perform_view a st1 st2 :
  well_formed st1 -> well_formed st2 -> view st1 = view st2 ->
  view (fst (perform a st1)) = view (fst (perform a st2))
  /\ snd (perform a st1) = snd (perform a st2).
Proof.
  intros W1 W2 Hv. pose proof Hv as Hv'. unfold view in Hv'.
  injection Hv' as Hroster Hname Hmarks.
  destruct a as [n|m k| | |]; cbn [perform].
  - destruct (start_new_student_session_cases n st1)
      as [[E1 Hs]|[[Hne Heq]|[Hne Hdiff]]].
    + destruct (start_new_student_session_cases n st2)
        as [[E2 _]|[[Hne2 _]|[Hne2 _]]]; try congruence.
      rewrite E1, E2. auto.
    + rewrite !start_new_student_session_same by congruence. auto.
    + rewrite !start_new_student_session_new by congruence. cbn [fst snd].
      rewrite !view_fresh_session by assumption. split; congruence.
  - destruct (add_module_mark_cases m k (current_student_name st1))
      as [(e & _ & E)|(mark & Hn & Hm & Hk & Hp & Hr)].
    + rewrite (E st1 eq_refl), (E st2 (eq_sym Hname)). auto.
    + rewrite (view_add_module_mark _ _ _ _ W1 Hn Hm Hk Hp Hr).
      rewrite Hname in Hn.
      rewrite (view_add_module_mark _ _ _ _ W2 Hn Hm Hk Hp Hr).
      rewrite (add_module_mark_ok m k st1 mark), (add_module_mark_ok m k st2 mark)
        by congruence.
      cbn [snd]. rewrite Hroster, Hname, Hmarks. auto.
  - destruct (finalize_student_cases (current_student_name st1) (session_marks st1))
      as [(e & _ & E)|[Hn Hm]].
    + rewrite (E st1 eq_refl eq_refl), (E st2 (eq_sym Hname) (eq_sym Hmarks)). auto.
    + rewrite (view_finalize_student _ W1 Hn Hm).
      rewrite (finalize_student_ok _ Hn Hm).
      rewrite Hname in Hn. rewrite Hmarks in Hm.
      rewrite (view_finalize_student _ W2 Hn Hm).
      rewrite (finalize_student_ok _ Hn Hm).
      cbn [snd]. rewrite Hroster, Hname, Hmarks. auto.
  - rewrite !view_live_report_state. split; [exact Hv|].
    unfold view_live_report. rewrite Hname, Hmarks.
    destruct (current_student_name st2 =? "")%string; [reflexivity|].
    now destruct (session_marks st2).
  - unfold clear_all_fields, alloc. cbn [fst snd].
    rewrite !view_fresh_session by assumption. split; congruence.
Qed.

Lemma run_view acts st1 st2 :
  invariant st1 -> invariant st2 -> view st1 = view st2 ->
  view (run acts st1) = view (run acts st2).
Proof.
  revert st1 st2. induction acts as [|a acts IH]; intros st1 st2 I1 I2 Hv.
  - exact Hv.
  - simpl. apply IH; try now apply invariant_perform.
    apply perform_view; [apply I1|apply I2|exact Hv].
Qed.

Lemma run_app acts1 acts2 st : run (acts1 ++ acts2) st = run acts2 (run acts1 st).
Proof. unfold run. apply fold_left_app. Qed.

Lemma reachable_run acts st : reachable st -> reachable (run acts st).
Proof. intros [acts0 ->]. exists (acts0 ++ acts). now rewrite run_app. Qed.

(** ** The callbacks *)

(** C7: a call of start_new_student_session, add_module_mark or
    finalize_student that reports a validation failure (EmptyName,
    EmptyField, NotNumeric, OutOfRange, NoActiveSession, NoMarks) returns
    the state it was given: roster, session name, session marks and every
    stored dictionary are as before.  The callbacks are total functions:
    the one exception the code can meet, ValueError from float, is caught. *)
Theorem failed_call_keeps_state st :
  (forall txtName e,
      failure (snd (start_new_student_session txtName st)) = Some e ->
      fst (start_new_student_session txtName st) = st /\ e = EmptyName)
  /\ (forall txtModule txtMark e,
         failure (snd (add_module_mark txtModule txtMark st)) = Some e ->
         fst (add_module_mark txtModule txtMark st) = st
         /\ In e [NoActiveSession; EmptyField; NotNumeric; OutOfRange])
  /\ (forall e,
         failure (snd (finalize_student st)) = Some e ->
         fst (finalize_student st) = st /\ In e [NoActiveSession; NoMarks]).
Proof.
  split; [|split].
  - intros n e.
    destruct (start_new_student_session_cases n st)
      as [[-> _]|[[Hne Heq]|[Hne Hdiff]]].
    + simpl. intros [= <-]. auto.
    + rewrite start_new_student_session_same by assumption. discriminate.
    + rewrite start_new_student_session_new by assumption. discriminate.
  - intros m k e. unfold add_module_mark.
    destruct (current_student_name st =? "")%string;
      [simpl; intros [= <-]; auto|].
    destruct ((strip m =? "") || (strip k =? ""))%string;
      [simpl; intros [= <-]; auto|].
    destruct (py_float (strip k)) as [mark|];
      [|simpl; intros [= <-]; auto 6].
    destruct (negb _); [simpl; intros [= <-]; auto 6|].
    destruct (dict_get (session_marks st) (strip m)); discriminate.
  - intros e. unfold finalize_student.
    destruct (current_student_name st =? "")%string;
      [simpl; intros [= <-]; auto|].
    destruct (session_marks st); [simpl; intros [= <-]; auto|]. discriminate.
Qed.

Lemma failed_call_keeps_state_witness :
  failure (snd (add_module_mark "Math" "abc" alice_named)) = Some NotNumeric
  /\ fst (add_module_mark "Math" "abc" alice_named) = alice_named.
Proof.
  split; [reflexivity|].
  apply (proj1 (proj2 (failed_call_keeps_state alice_named))
               "Math" "abc" NotNumeric).
  reflexivity.
Defined.

(** C8: view_live_report reports NoActiveSession when the session has no
    name or no marks; otherwise it shows the average and grade computed by
    calculate_average and get_grade; in both cases the state (session name,
    session marks, roster, every stored dictionary) is returned unchanged. *)
Theorem view_live_report_read_only st :
  fst (view_live_report st) = st
  /\ (current_student_name st = "" \/ session_marks st = [] ->
      snd (view_live_report st) = [WarnIncomplete]
      /\ failure (snd (view_live_report st)) = Some NoActiveSession)
  /\ (current_student_name st <> "" -> session_marks st <> [] ->
      snd (view_live_report st)
      = [InfoLive (current_student_name st)
                  (calculate_average (session_marks st))
                  (get_grade (Some (calculate_average (session_marks st))))]).
Proof.
  split; [apply view_live_report_state|]. unfold view_live_report. split.
  - intros [Hn|Hm].
    + rewrite Hn. simpl. auto.
    + rewrite Hm. destruct (current_student_name st =? "")%string; auto.
  - intros Hn Hm. apply String.eqb_neq in Hn. rewrite Hn.
    destruct (session_marks st); [congruence|reflexivity].
Qed.

Lemma view_live_report_read_only_witness :
  current_student_name alice_one_mark <> ""
  /\ session_marks alice_one_mark <> []
  /\ snd (view_live_report alice_one_mark)
     = [InfoLive (current_student_name alice_one_mark)
                 (calculate_average (session_marks alice_one_mark))
                 (get_grade (Some (calculate_average (session_marks alice_one_mark))))].
Proof.
  split; [discriminate|]. split; [discriminate|].
  apply (proj2 (proj2 (view_live_report_read_only alice_one_mark)));
    discriminate.
Defined.




Lemma run_frame acts st l :
  (l < length (store st))%nat -> l <> current_student_marks st ->
  deref (store (run acts st)) l = deref (store st) l.
Proof.
  revert st. induction acts as [|a acts IH]; intros st Hl Hcur; [reflexivity|].
  destruct (store_frame a st l Hl Hcur) as (E & Hl' & Hcur').
  simpl. rewrite IH by assumption. exact E.
Qed.

(** C3: finalize_student on a session with a name and at least one mark
    computes the average with calculate_average and the grade with
    get_grade, stores under the student's name a record that replaces any
    earlier one, with a copy of the marks that is a different object from
    the session's dictionary and is never changed by what is done later,
    resets the session name and marks to empty, so that view_live_report
    then reports NoActiveSession.  Finalizing "Alice" with {Math: 80,
    Eng: 90} stores average 85.0 and grade "B"; finalizing the same name a
    second time with other marks leaves only the new marks. *)
Theorem finalize_student_saves :
  (forall st,
      reachable st ->
      current_student_name st <> "" ->
      session_marks st <> [] ->
      let name := current_student_name st in
      let d := session_marks st in
      let st' := fst (finalize_student st) in
      exists r,
        snd (finalize_student st) = [InfoSaved name (average r) (grade r)]
        /\ average r = calculate_average d
        /\ grade r = get_grade (Some (average r))
        /\ student_records st' = dict_set (student_records st) name r
        /\ dict_get (student_records st') name = Some r
        /\ (forall n, n <> name ->
              dict_get (student_records st') n = dict_get (student_records st) n)
        /\ deref (store st') (marks r) = d
        /\ marks r <> current_student_marks st
        /\ marks r <> current_student_marks st'
        /\ (forall acts, deref (store (run acts st')) (marks r) = d)
        /\ current_student_name st' = ""
        /\ session_marks st' = []
        /\ failure (snd (view_live_report st')) = Some NoActiveSession)
  /\ (let st := run [StartSession "Alice"; AddMark "Math" "80";
                     AddMark "Eng" "90"; Finalize] initial_state in
      exists r,
        dict_get (student_records st) "Alice" = Some r
        /\ float_eqb (average r) (finite 85) = true
        /\ grade r = "B"
        /\ deref (store st) (marks r) = [("Math", finite 80); ("Eng", finite 90)]
        /\ current_student_name st = "" /\ session_marks st = []
        /\ failure (snd (view_live_report st)) = Some NoActiveSession)
  /\ (let st := run [StartSession "Alice"; AddMark "Math" "80"; Finalize;
                     StartSession "Alice"; AddMark "Eng" "90"; Finalize]
                    initial_state in
      roster_view st = [("Alice", ([("Eng", finite 90)], finite 90, "A"))]).
Proof.
  split; [|split].
  - intros st Hreach Hn Hm name d st'.
    destruct (reachable_invariant st Hreach) as ((Hcur & _) & _).
    subst st'. rewrite (finalize_student_ok _ Hn Hm). cbn [fst snd].
    fold name d. eexists (mk_record _ _ _). cbn [marks average grade].
    cbn [store student_records current_student_marks current_student_name].
    assert (Hcopy : deref ((store st ++ [d]) ++ [[]]) (length (store st)) = d).
    { rewrite deref_alloc_old.
      - apply deref_alloc_new.
      - rewrite length_app. simpl. lia. }
    split; [reflexivity|]. split; [reflexivity|]. split; [reflexivity|].
    split; [reflexivity|]. split; [apply dict_get_set_eq|].
    split; [intros n Hne; apply dict_get_set_ne; congruence|].
    split; [exact Hcopy|]. split; [lia|]. split; [lia|].
    split; [|split; [reflexivity|split]].
    + intros acts. rewrite run_frame; [exact Hcopy| |]; simpl.
      * rewrite !length_app. simpl. lia.
      * lia.
    + rewrite session_marks_mk.
      pose proof (deref_alloc_new (store st ++ [d]) []) as E.
      rewrite length_app in E. simpl in E. now rewrite Nat.add_1_r in E.
    + reflexivity.
  - eexists. repeat split.
  - reflexivity.
Qed.

Lemma finalize_student_saves_witness :
  reachable zoe_two_marks
  /\ current_student_name zoe_two_marks <> ""
  /\ session_marks zoe_two_marks <> []
  /\ exists r,
      snd (finalize_student zoe_two_marks) = [InfoSaved "Zoe" (average r) (grade r)]
      /\ average r = calculate_average (session_marks zoe_two_marks)
      /\ grade r = get_grade (Some (average r))
      /\ dict_get (student_records (fst (finalize_student zoe_two_marks))) "Zoe"
         = Some r
      /\ deref (store (fst (finalize_student zoe_two_marks))) (marks r)
         = session_marks zoe_two_marks.
Proof.
  assert (Hreach : reachable zoe_two_marks) by (eexists; reflexivity).
  assert (Hn : current_student_name zoe_two_marks <> "") by discriminate.
  assert (Hm : session_marks zoe_two_marks <> []) by discriminate.
  split; [exact Hreach|]. split; [exact Hn|]. split; [exact Hm|].
  destruct (proj1 finalize_student_saves zoe_two_marks Hreach Hn Hm)
    as (r & H1 & H2 & H3 & _ & H5 & _ & H7 & _).
  exists r. auto.
Defined.

(** C4 as stated fails: "inf" does not parse as a finite number, yet
    add_module_mark answers it with OutOfRange, not NotNumeric. *)
Lemma add_module_mark_inf_is_out_of_range :
  current_student_name alice_named <> ""
  /\ strip "Math" <> "" /\ strip "inf" <> ""
  /\ ~ parses_finite (strip "inf")
  /\ failure (snd (add_module_mark "Math" "inf" alice_named)) = Some OutOfRange
  /\ failure (snd (add_module_mark "Math" "inf" alice_named)) <> Some NotNumeric.
Proof.
  split; [discriminate|]. split; [discriminate|]. split; [discriminate|].
  split; [intros [q Hq]; discriminate|]. split; [reflexivity|discriminate].
Qed.

(** C4, amended: add_module_mark makes its checks in this order and fails
    exactly as follows: NoActiveSession when the session has no name;
    EmptyField when the stripped module name or mark is empty; NotNumeric
    when float rejects the stripped mark (e.g. "abc"); OutOfRange when
    float accepts it and the value is not within [0,100], which includes
    inf, -inf and nan (e.g. "101", "-1", "inf", "nan"); it succeeds
    otherwise, that is when the value is a finite number within [0,100]. *)
Theorem add_module_mark_failures st txtModule txtMark :
  let name := current_student_name st in
  let module := strip txtModule in
  let mark_input := strip txtMark in
  let result := failure (snd (add_module_mark txtModule txtMark st)) in
  (result = Some NoActiveSession <-> name = "")
  /\ (result = Some EmptyField
      <-> name <> "" /\ (module = "" \/ mark_input = ""))
  /\ (result = Some NotNumeric
      <-> name <> "" /\ module <> "" /\ mark_input <> ""
          /\ py_float mark_input = None)
  /\ (result = Some OutOfRange
      <-> name <> "" /\ module <> "" /\ mark_input <> ""
          /\ exists mark, py_float mark_input = Some mark
                          /\ in_range mark = false)
  /\ (result = None
      <-> name <> "" /\ module <> "" /\ mark_input <> ""
          /\ exists q, py_float mark_input = Some (finite q)
                       /\ (0 <= q)%Q /\ (q <= 100)%Q)
  /\ in_range (inf false) = false /\ in_range (inf true) = false
  /\ in_range nan = false
  /\ map (fun k => failure (snd (add_module_mark "Math" k alice_named)))
         ["101"; "-1"; "abc"; "inf"; "nan"; "80"]
     = [Some OutOfRange; Some OutOfRange; Some NotNumeric; Some OutOfRange;
        Some OutOfRange; None].
Proof.
  intros name module mark_input result.
  assert (Hres : result =
    if (name =? "")%string then Some NoActiveSession
    else if ((module =? "") || (mark_input =? ""))%string then Some EmptyField
    else match py_float mark_input with
         | None => Some NotNumeric
         | Some mark => if in_range mark then None else Some OutOfRange
         end).
  { subst result name module mark_input. unfold add_module_mark.
    destruct (current_student_name st =? "")%string; [reflexivity|].
    destruct ((strip txtModule =? "") || (strip txtMark =? ""))%string;
      [reflexivity|].
    destruct (py_float (strip txtMark)) as [mark|]; [|reflexivity].
    fold (in_range mark). destruct (in_range mark); simpl; [|reflexivity].
    now destruct (dict_get (session_marks st) (strip txtModule)). }
  rewrite Hres. clearbody result name module mark_input. clear Hres result.
  assert (Hfin : forall q, in_range (finite q) = false ->
                           (0 <= q)%Q -> (q <= 100)%Q -> False).
  { intros q E H0 H1.
    assert (in_range (finite q) = true) by now apply in_range_finite.
    congruence. }
  split; [|split; [|split; [|split; [|split; [|repeat split; reflexivity]]]]].
  all: destruct (name =? "")%string eqn:En;
    [apply String.eqb_eq in En|apply String.eqb_neq in En];
    [|destruct (module =? "")%string eqn:Em;
      [apply String.eqb_eq in Em|apply String.eqb_neq in Em];
      [|destruct (mark_input =? "")%string eqn:Ek;
        [apply String.eqb_eq in Ek|apply String.eqb_neq in Ek];
        [|destruct (py_float mark_input) as [mark|] eqn:Ep;
          [destruct (in_range mark) eqn:Er;
           [destruct (in_range_inv _ Er) as (q0 & -> & Hq0 & Hq1)|]|]]]];
    cbn [orb]; split; intros H;
    repeat match goal with
           | H : _ /\ _ |- _ => destruct H
           | H : exists _, _ |- _ => destruct H
           | H : _ \/ _ |- _ => destruct H
           | H : Some _ = Some _ |- _ => injection H as H; subst
           end;
    try discriminate; try congruence; try tauto; eauto 8.
  exfalso. eapply Hfin; eauto.
Qed.

(** ** Sequences of writes *)

Lemma apply_writes_snoc d ws w :
  apply_writes d (ws ++ [w]) = dict_set (apply_writes d ws) (fst w) (snd w).
Proof. unfold apply_writes. now rewrite fold_left_app. Qed.

Lemma last_write_snoc ws w k :
  last_write (ws ++ [w]) k
  = if (fst w =? k)%string then Some (snd w) else last_write ws k.
Proof. unfold last_write. now rewrite fold_left_app. Qed.

Lemma dict_get_apply_writes d ws k :
  dict_get (apply_writes d ws) k
  = match last_write ws k with
    | Some v => Some v
    | None => dict_get d k
    end.
Proof.
  induction ws as [|w ws IH] using rev_ind; [reflexivity|].
  rewrite apply_writes_snoc, last_write_snoc.
  destruct (fst w =? k)%string eqn:E.
  - apply String.eqb_eq in E. subst k. apply dict_get_set_eq.
  - apply String.eqb_neq in E. now rewrite dict_get_set_ne.
Qed.

Lemma keys_apply_writes d ws k :
  In k (keys (apply_writes d ws)) <-> In k (keys d ++ map fst ws).
Proof.
  revert k. induction ws as [|w ws IH] using rev_ind; intros k.
  - simpl. now rewrite app_nil_r.
  - rewrite apply_writes_snoc, keys_dict_set, map_app, app_assoc. simpl.
    destruct (dict_mem (apply_writes d ws) (fst w)) eqn:E.
    + rewrite IH, (in_app_iff (keys d ++ map fst ws)). simpl.
      apply dict_mem_In, IH in E. split; [tauto|].
      intros [H|[<-|[]]]; assumption.
    + rewrite !(in_app_iff _ [fst w]), IH. tauto.
Qed.

Lemma NoDup_keys_apply_writes d ws :
  NoDup (keys d) -> NoDup (keys (apply_writes d ws)).
Proof.
  intros Hd. induction ws as [|w ws IH] using rev_ind; [exact Hd|].
  rewrite apply_writes_snoc. now apply NoDup_keys_dict_set.
Qed.

Lemma length_apply_writes d ws :
  NoDup (keys d) ->
  length (apply_writes d ws) = length (distinct (keys d ++ map fst ws)).
Proof.
  intros Hd. rewrite <- (length_map fst (apply_writes d ws)).
  apply Permutation_length, NoDup_Permutation.
  - now apply (NoDup_keys_apply_writes d ws).
  - apply NoDup_remove_dups.
  - intros k. unfold distinct. rewrite elem_of_remove_dups.
    rewrite !list_elem_of_In. apply keys_apply_writes.
Qed.

Lemma add_module_mark_write c w st :
  invariant st ->
  current_student_name st <> "" ->
  writes_of c w ->
  let st' := fst (add_module_mark (fst c) (snd c) st) in
  session_marks st' = dict_set (session_marks st) (fst w) (snd w)
  /\ current_student_name st' = current_student_name st
  /\ student_records st' = student_records st
  /\ snd (add_module_mark (fst c) (snd c) st)
     = match dict_get (session_marks st) (fst w) with
       | Some old => [WarnOverwritten (fst w) old (snd w)]
       | None => []
       end.
Proof.
  intros ((Hcur & _) & _) Hn (Hm & Hm' & Hk & Hp & Hr) st'. subst st'.
  rewrite <- Hm in Hm'.
  rewrite (add_module_mark_ok _ _ _ _ Hn Hm' Hk Hp Hr). cbn [fst snd].
  rewrite session_marks_mk, deref_insert_eq by exact Hcur.
  rewrite Hm. auto.
Qed.

Lemma run_add_marks calls ws st :
  invariant st ->
  current_student_name st <> "" ->
  Forall2 writes_of calls ws ->
  let st' := run (add_marks calls) st in
  session_marks st' = apply_writes (session_marks st) ws
  /\ current_student_name st' = current_student_name st
  /\ student_records st' = student_records st.
Proof.
  intros Hinv Hn Hcalls. revert st Hinv Hn.
  induction Hcalls as [|c w calls ws Hc _ IH]; intros st Hinv Hn; [simpl; auto|].
  destruct (add_module_mark_write c w st Hinv Hn Hc) as (E1 & E2 & E3 & _).
  cbn [add_marks map run fold_left perform].
  specialize (IH (fst (add_module_mark (fst c) (snd c) st))).
  destruct IH as (F1 & F2 & F3).
  - now apply invariant_add_module_mark.
  - congruence.
  - unfold run, add_marks in *. rewrite F1, F2, F3, E1, E2, E3. auto.
Qed.

(** C5: a sequence of valid add_module_mark calls leaves in the session
    exactly the marks obtained by writing them in turn: the module count
    is the number of distinct (stripped) module names, each name holds the
    last value written for it, names not written keep their mark; a call
    that writes to a name already present replaces the old value, shows the
    overwrite warning with the old and the new value, and is not refused. *)
Theorem add_module_mark_last_write_wins :
  (forall st calls ws,
      reachable st ->
      current_student_name st <> "" ->
      Forall2 writes_of calls ws ->
      let st' := run (add_marks calls) st in
      session_marks st' = apply_writes (session_marks st) ws
      /\ length (session_marks st')
         = length (distinct (keys (session_marks st) ++ map fst ws))
      /\ (session_marks st = [] ->
          length (session_marks st') = length (distinct (map fst ws)))
      /\ (forall k v, last_write ws k = Some v ->
                      dict_get (session_marks st') k = Some v)
      /\ (forall k, last_write ws k = None ->
                    dict_get (session_marks st') k = dict_get (session_marks st) k))
  /\ (forall st c w old,
         reachable st ->
         current_student_name st <> "" ->
         writes_of c w ->
         dict_get (session_marks st) (fst w) = Some old ->
         let st' := fst (add_module_mark (fst c) (snd c) st) in
         snd (add_module_mark (fst c) (snd c) st)
         = [WarnOverwritten (fst w) old (snd w)]
         /\ failure (snd (add_module_mark (fst c) (snd c) st)) = None
         /\ dict_get (session_marks st') (fst w) = Some (snd w)
         /\ length (session_marks st') = length (session_marks st)).
Proof.
  split.
  - intros st calls ws Hreach Hn Hcalls st'.
    pose proof (reachable_invariant st Hreach) as Hinv.
    destruct (run_add_marks calls ws st Hinv Hn Hcalls) as (E & _). fold st' in E.
    destruct Hinv as (_ & Hnd & _).
    rewrite E. split; [reflexivity|]. split; [now apply length_apply_writes|].
    split; [|split].
    + intros Hd. rewrite length_apply_writes by exact Hnd. now rewrite Hd.
    + intros k v Hk. now rewrite dict_get_apply_writes, Hk.
    + intros k Hk. now rewrite dict_get_apply_writes, Hk.
  - intros st c w old Hreach Hn Hc Hold st'.
    pose proof (reachable_invariant st Hreach) as Hinv.
    destruct (add_module_mark_write c w st Hinv Hn Hc) as (E1 & _ & _ & E4).
    fold st' in E1. rewrite E4, E1, Hold.
    split; [reflexivity|]. split; [reflexivity|]. split; [apply dict_get_set_eq|].
    rewrite length_dict_set. unfold dict_mem. now rewrite Hold.
Qed.

Lemma add_module_mark_last_write_wins_witness :
  reachable alice_named
  /\ current_student_name alice_named <> ""
  /\ Forall2 writes_of
       [("Math", "80"); (" Eng ", "90"); ("Math ", "85.5")]
       [("Math", finite 80); ("Eng", finite 90); ("Math", finite (171 # 2))]
  /\ length (session_marks
               (run (add_marks [("Math", "80"); (" Eng ", "90"); ("Math ", "85.5")])
                    alice_named))
     = length (distinct (keys (session_marks alice_named)
                         ++ map fst [("Math", finite 80); ("Eng", finite 90);
                                     ("Math", finite (171 # 2))])).
Proof.
  assert (Hreach : reachable alice_named) by (eexists; reflexivity).
  assert (Hn : current_student_name alice_named <> "") by discriminate.
  assert (Hc : Forall2 writes_of
       [("Math", "80"); (" Eng ", "90"); ("Math ", "85.5")]
       [("Math", finite 80); ("Eng", finite 90); ("Math", finite (171 # 2))]).
  { repeat (apply List.Forall2_cons;
              [unfold writes_of; repeat split; try discriminate; reflexivity|]).
    apply List.Forall2_nil. }
  split; [exact Hreach|]. split; [exact Hn|]. split; [exact Hc|].
  destruct (proj1 add_module_mark_last_write_wins alice_named _ _ Hreach Hn Hc)
    as (_ & H & _).
  exact H.
Defined.

Lemma start_new_student_session_view st txtName :
  invariant st ->
  strip txtName <> "" ->
  strip txtName <> current_student_name st ->
  view (fst (start_new_student_session txtName st))
  = (roster_view st, strip txtName, []).
Proof.
  intros (Hwf & _) Hne Hdiff.
  rewrite start_new_student_session_new by assumption.
  now apply view_fresh_session.
Qed.

(** After a change of name nothing that can be observed depends on the
    marks of the session that was dropped. *)
Lemma start_new_student_session_forgets st1 st2 txtName acts :
  invariant st1 -> invariant st2 ->
  roster_view st1 = roster_view st2 ->
  strip txtName <> "" ->
  strip txtName <> current_student_name st1 ->
  strip txtName <> current_student_name st2 ->
  view (run acts (fst (start_new_student_session txtName st1)))
  = view (run acts (fst (start_new_student_session txtName st2))).
Proof.
  intros I1 I2 Hr Hne H1 H2.
  apply run_view; try now apply invariant_start_new_student_session.
  rewrite !start_new_student_session_view by assumption. now rewrite Hr.
Qed.

(** C6: start_new_student_session with the name of the session in
    progress changes nothing (the marks are kept); with another name, or
    when no session is in progress, it starts a session with that name and
    an empty marks dictionary, shows only the "session started" notice,
    leaves the roster alone, and from then on nothing observable depends on
    the marks that were dropped.  After "Alice", Math 80, "Bob" the state
    looks exactly as if only "Bob" had been entered, whatever is done
    next. *)
Theorem start_new_student_session_switch :
  (forall st txtName,
      strip txtName <> "" ->
      strip txtName = current_student_name st ->
      start_new_student_session txtName st = (st, []))
  /\ (forall st txtName,
         reachable st ->
         strip txtName <> "" ->
         strip txtName <> current_student_name st ->
         let st' := fst (start_new_student_session txtName st) in
         snd (start_new_student_session txtName st)
         = [InfoSessionStarted (strip txtName)]
         /\ current_student_name st' = strip txtName
         /\ session_marks st' = []
         /\ roster_view st' = roster_view st
         /\ forall st2 acts,
             reachable st2 ->
             roster_view st2 = roster_view st ->
             strip txtName <> current_student_name st2 ->
             view (run acts st')
             = view (run acts (fst (start_new_student_session txtName st2))))
  /\ session_marks alice_one_mark = [("Math", finite 80)]
  /\ view (run [StartSession "Bob"] alice_one_mark) = ([], "Bob", [])
  /\ view (run [StartSession "Bob"; StartSession "Alice"] alice_one_mark)
     = ([], "Alice", [])
  /\ forall acts,
      view (run acts (run [StartSession "Bob"] alice_one_mark))
      = view (run acts (run [StartSession "Bob"] initial_state)).
Proof.
  split; [|split; [|split; [|split; [|split]]]]; try reflexivity.
  - intros st txtName. apply start_new_student_session_same.
  - intros st txtName Hreach Hne Hdiff st'.
    pose proof (reachable_invariant st Hreach) as Hinv.
    pose proof (start_new_student_session_view st txtName Hinv Hne Hdiff) as Hv.
    fold st' in Hv. unfold view in Hv. injection Hv as Hv1 Hv2 Hv3.
    split; [now rewrite start_new_student_session_new|].
    split; [exact Hv2|]. split; [exact Hv3|]. split; [exact Hv1|].
    intros st2 acts Hreach2 Hr H2. subst st'.
    apply start_new_student_session_forgets; auto.
    now apply reachable_invariant.
  - intros acts.
    apply (start_new_student_session_forgets alice_one_mark initial_state "Bob");
      try discriminate; try reflexivity.
    + apply reachable_invariant. eexists. reflexivity.
    + apply invariant_initial.
Qed.

Lemma start_new_student_session_switch_witness :
  reachable alice_one_mark
  /\ strip " Bob " <> ""
  /\ strip " Bob " <> current_student_name alice_one_mark
  /\ session_marks (fst (start_new_student_session " Bob " alice_one_mark)) = [].
Proof.
  assert (Hreach : reachable alice_one_mark) by (eexists; reflexivity).
  assert (Hne : strip " Bob " <> "") by discriminate.
  assert (Hdiff : strip " Bob " <> current_student_name alice_one_mark)
    by discriminate.
  split; [exact Hreach|]. split; [exact Hne|]. split; [exact Hdiff|].
  destruct (proj1 (proj2 start_new_student_session_switch)
              alice_one_mark " Bob " Hreach Hne Hdiff) as (_ & _ & H & _).
  exact H.
Defined.

(** * Further properties of the callbacks *)

(** ** The callbacks act on contents, not on addresses *)

Lemma view_perform a st :
  invariant st -> view (fst (perform a st)) = view_step a (view st).
Proof.
  intros Hinv. pose proof (proj1 Hinv) as Hwf.
  unfold view_step, view at 2.
  destruct a as [n|m k| | |]; cbn [perform].
  - destruct (start_new_student_session_cases n st)
      as [[E Hs]|[[Hne Heq]|[Hne Hdiff]]].
    + rewrite E, Hs. reflexivity.
    + rewrite start_new_student_session_same by assumption.
      apply String.eqb_neq in Hne. rewrite Hne, Heq, String.eqb_refl. reflexivity.
    + rewrite start_new_student_session_view by assumption.
      apply String.eqb_neq in Hne, Hdiff. now rewrite Hne, Hdiff.
  - destruct (current_student_name st =? "")%string eqn:En;
      [unfold add_module_mark; now rewrite En|].
    destruct ((strip m =? "") || (strip k =? ""))%string eqn:Em;
      [unfold add_module_mark; now rewrite En, Em|].
    destruct (py_float (strip k)) as [mark|] eqn:Ep;
      [|unfold add_module_mark; now rewrite En, Em, Ep].
    destruct (in_range mark) eqn:Er.
    + apply orb_false_iff in Em. destruct Em as [Em Ek].
      apply String.eqb_neq in En, Em, Ek.
      apply (view_add_module_mark _ _ _ _ Hwf En Em Ek Ep Er).
    + unfold add_module_mark. rewrite En, Em, Ep. fold (in_range mark).
      now rewrite Er.
  - destruct (current_student_name st =? "")%string eqn:En;
      [unfold finalize_student; now rewrite En|].
    destruct (session_marks st) as [|e r] eqn:Em;
      [unfold finalize_student; now rewrite En, Em|].
    rewrite <- Em. apply String.eqb_neq in En.
    rewrite view_finalize_student; [reflexivity|assumption..|congruence].
  - now rewrite view_live_report_state.
  - unfold clear_all_fields, alloc. cbn [fst]. now apply view_fresh_session.
Qed.

Lemma run_snoc acts a st : run (acts ++ [a]) st = fst (perform a (run acts st)).
Proof. now rewrite run_app. Qed.

(** Induction over the reachable states, on what can be seen of them. *)
Lemma reachable_view_ind
    (P : dict (dict pyfloat * pyfloat * string) * string * dict pyfloat -> Prop) :
  P (view initial_state) ->
  (forall a v, P v -> P (view_step a v)) ->
  forall st, reachable st -> P (view st).
Proof.
  intros H0 Hstep st [acts ->].
  induction acts as [|a acts IH] using rev_ind; [exact H0|].
  rewrite run_snoc, view_perform.
  - now apply Hstep.
  - apply invariant_run, invariant_initial.
Qed.

(** ** [strip] *)

Lemma rstrip_idempotent s : rstrip (rstrip s) = rstrip s.
Proof.
  induction s as [|c r IH]; [reflexivity|]. cbn [rstrip].
  destruct (isspace c && (rstrip r =? "")%string) eqn:E; [reflexivity|].
  cbn [rstrip]. now rewrite IH, E.
Qed.

Lemma lstrip_head s :
  lstrip s = "" \/ exists c r, lstrip s = String c r /\ isspace c = false.
Proof.
  induction s as [|c r IH]; [now left|]. cbn [lstrip].
  destruct (isspace c) eqn:E; [exact IH|]. right. eauto.
Qed.

Lemma lstrip_rstrip_lstrip s : lstrip (rstrip (lstrip s)) = rstrip (lstrip s).
Proof.
  destruct (lstrip_head s) as [->|(c & r & -> & Hc)]; [reflexivity|].
  cbn [rstrip]. rewrite Hc. cbn [andb lstrip]. now rewrite Hc.
Qed.

Lemma strip_idempotent s : strip (strip s) = strip s.
Proof.
  unfold strip. now rewrite lstrip_rstrip_lstrip, rstrip_idempotent.
Qed.

Lemma trimmed_strip s : strip s <> "" -> trimmed (strip s).
Proof. intros H. split; [exact H|apply strip_idempotent]. Qed.

Lemma view_run acts st :
  invariant st ->
  view (run acts st) = fold_left (fun v a => view_step a v) acts (view st).
Proof.
  revert st. induction acts as [|a acts IH]; intros st Hinv; [reflexivity|].
  cbn [run fold_left]. fold (run acts (fst (perform a st))).
  rewrite IH by now apply invariant_perform. now rewrite view_perform.
Qed.

Lemma dialogs_view acts st1 st2 :
  invariant st1 -> invariant st2 -> view st1 = view st2 ->
  dialogs acts st1 = dialogs acts st2.
Proof.
  revert st1 st2. induction acts as [|a acts IH]; intros st1 st2 I1 I2 Hv;
    [reflexivity|].
  destruct (perform_view a st1 st2 (proj1 I1) (proj1 I2) Hv) as [Hv' Hd].
  cbn [dialogs]. rewrite Hd. f_equal.
  apply IH; try now apply invariant_perform. exact Hv'.
Qed.

(** X1: two reachable states that show the same roster contents, session
    name and session marks answer every sequence of button clicks with the
    same message boxes and look the same afterwards: the addresses of the
    dictionaries, and dictionaries no longer referred to, are never
    observed. *)
Theorem same_view_same_behaviour st1 st2 acts :
  reachable st1 -> reachable st2 -> view st1 = view st2 ->
  dialogs acts st1 = dialogs acts st2
  /\ view (run acts st1) = view (run acts st2).
Proof.
  intros R1 R2 Hv.
  pose proof (reachable_invariant _ R1) as I1.
  pose proof (reachable_invariant _ R2) as I2.
  split; [now apply dialogs_view|now apply run_view].
Qed.

Lemma same_view_same_behaviour_witness :
  reachable (run [StartSession "Bob"] alice_one_mark)
  /\ reachable (run [StartSession "Bob"] initial_state)
  /\ view (run [StartSession "Bob"] alice_one_mark)
     = view (run [StartSession "Bob"] initial_state)
  /\ dialogs [AddMark "Art" "70"; Finalize] (run [StartSession "Bob"] alice_one_mark)
     = dialogs [AddMark "Art" "70"; Finalize] (run [StartSession "Bob"] initial_state).
Proof.
  assert (R1 : reachable (run [StartSession "Bob"] alice_one_mark))
    by (apply reachable_run; eexists; reflexivity).
  assert (R2 : reachable (run [StartSession "Bob"] initial_state))
    by (eexists; reflexivity).
  assert (Hv : view (run [StartSession "Bob"] alice_one_mark)
               = view (run [StartSession "Bob"] initial_state)) by reflexivity.
  split; [exact R1|]. split; [exact R2|]. split; [exact Hv|].
  exact (proj1 (same_view_same_behaviour _ _ [AddMark "Art" "70"; Finalize]
                  R1 R2 Hv)).
Defined.

(** ** Names *)

Lemma Forall_keys_dict_set {V} (P : string -> Prop) (d : dict V) k v :
  Forall P (keys d) -> P k -> Forall P (keys (dict_set d k v)).
Proof.
  intros Hd Hk. rewrite keys_dict_set. destruct (dict_mem d k); [exact Hd|].
  apply Forall_app. split; [exact Hd|]. now constructor.
Qed.

Lemma names_ok_step a v : names_ok v -> names_ok (view_step a v).
Proof.
  destruct v as [[roster name] session].
  intros (Hname & Hst & Hsd & Hrt & Hrd & Hrecs).
  destruct a as [n|m k| | |]; cbn [view_step].
  - destruct (strip n =? "")%string; [repeat split; assumption|].
    destruct (negb (strip n =? name)%string); [|repeat split; assumption].
    repeat split; try assumption; try constructor. apply strip_idempotent.
  - destruct (name =? "")%string; [repeat split; assumption|].
    destruct (strip m =? "")%string eqn:Em; [repeat split; assumption|].
    destruct (strip k =? "")%string; [repeat split; assumption|]. cbn [orb].
    destruct (py_float (strip k)) as [mark|]; [|repeat split; assumption].
    destruct (in_range mark); [|repeat split; assumption].
    apply String.eqb_neq in Em. repeat split; try assumption.
    + apply Forall_keys_dict_set; [assumption|now apply trimmed_strip].
    + now apply NoDup_keys_dict_set.
  - destruct (name =? "")%string eqn:En; [repeat split; assumption|].
    destruct session as [|e r]; [repeat split; assumption|].
    apply String.eqb_neq in En. repeat split; try constructor.
    + apply Forall_keys_dict_set; [assumption|]. now split.
    + now apply NoDup_keys_dict_set.
    + apply Forall_dict_set; [assumption|]. cbn [fst snd]. now split.
  - repeat split; assumption.
  - repeat split; try assumption; try constructor.
Qed.

Lemma keys_roster_view st : keys (roster_view st) = keys (student_records st).
Proof. unfold roster_view, keys. rewrite map_map. reflexivity. Qed.

(** X2: in every reachable state the names the program holds are trimmed:
    the session name has no white space at either end; every student name
    in the roster and every module name, in the session and in every roster
    record, is non-empty and has no white space at either end; and no
    dictionary holds a name twice. *)
Theorem stored_names_trimmed st :
  reachable st ->
  strip (current_student_name st) = current_student_name st
  /\ Forall trimmed (keys (session_marks st))
  /\ NoDup (keys (session_marks st))
  /\ Forall trimmed (keys (student_records st))
  /\ NoDup (keys (student_records st))
  /\ forall name r,
      In (name, r) (student_records st) ->
      Forall trimmed (keys (deref (store st) (marks r)))
      /\ NoDup (keys (deref (store st) (marks r))).
Proof.
  intros Hreach.
  pose proof (reachable_view_ind names_ok) as H.
  specialize (H ltac:(repeat split; constructor) names_ok_step st Hreach).
  unfold view, names_ok in H. rewrite keys_roster_view in H.
  destruct H as (H1 & H2 & H3 & H4 & H5 & H6).
  repeat split; try assumption.
  all: intros; rewrite List.Forall_forall in H6;
    apply (H6 (name, record_view (store st) r));
    unfold roster_view;
    apply (in_map (fun entry => (fst entry, record_view (store st) (snd entry)))
                  _ (name, r)); assumption.
Qed.

Lemma stored_names_trimmed_witness :
  reachable alice_saved
  /\ Forall trimmed (keys (student_records alice_saved))
  /\ NoDup (keys (student_records alice_saved)).
Proof.
  assert (Hreach : reachable alice_saved)
    by (apply reachable_run; eexists; reflexivity).
  split; [exact Hreach|].
  destruct (stored_names_trimmed alice_saved Hreach) as (_ & _ & _ & H4 & H5 & _).
  split; assumption.
Defined.

(** ** The roster *)

Lemma roster_view_step a v :
  fst (fst (view_step a v)) = fst (fst v)
  \/ a = Finalize
     /\ snd (fst v) <> "" /\ snd v <> []
     /\ fst (fst (view_step a v))
        = dict_set (fst (fst v)) (snd (fst v))
            (snd v, calculate_average (snd v),
             get_grade (Some (calculate_average (snd v)))).
Proof.
  destruct v as [[roster name] session]. cbn [fst snd].
  destruct a as [n|m k| | |]; cbn [view_step].
  - left. destruct (strip n =? "")%string; [reflexivity|].
    now destruct (negb (strip n =? name)%string).
  - left. destruct (name =? "")%string; [reflexivity|].
    destruct ((strip m =? "") || (strip k =? ""))%string; [reflexivity|].
    destruct (py_float (strip k)) as [mark|]; [|reflexivity].
    now destruct (in_range mark).
  - destruct (name =? "")%string eqn:En; [now left|].
    destruct session as [|e r]; [now left|]. right.
    apply String.eqb_neq in En. repeat split; [exact En|discriminate].
  - now left.
  - now left.
Qed.

(** X3: only a successful finalize_student writes the roster, and it writes
    only the entry of the student of the session: every other callback
    leaves every record (name, marks, average, grade) as it was, and no
    callback changes the record of another student. *)
Theorem roster_written_only_by_finalize a st :
  reachable st ->
  (a <> Finalize -> roster_view (fst (perform a st)) = roster_view st)
  /\ (forall other,
         other <> current_student_name st ->
         dict_get (roster_view (fst (perform a st))) other
         = dict_get (roster_view st) other).
Proof.
  intros Hreach. pose proof (reachable_invariant st Hreach) as Hinv.
  pose proof (view_perform a st Hinv) as Hv.
  assert (Hr : roster_view (fst (perform a st)) = fst (fst (view_step a (view st))))
    by now rewrite <- Hv.
  rewrite Hr.
  destruct (roster_view_step a (view st)) as [E|(Ea & _ & _ & E)]; rewrite E.
  - auto.
  - split; [congruence|]. intros other Hne. cbn [view fst snd].
    apply dict_get_set_ne. congruence.
Qed.

Lemma roster_written_only_by_finalize_witness :
  reachable alice_saved
  /\ roster_view (fst (perform (StartSession "Bob") alice_saved))
     = roster_view alice_saved.
Proof.
  assert (Hreach : reachable alice_saved)
    by (apply reachable_run; eexists; reflexivity).
  split; [exact Hreach|].
  apply (proj1 (roster_written_only_by_finalize (StartSession "Bob")
                  alice_saved Hreach)).
  discriminate.
Defined.

Lemma keys_roster_step a v :
  exists new, keys (fst (fst (view_step a v))) = keys (fst (fst v)) ++ new.
Proof.
  destruct (roster_view_step a v) as [->|(_ & _ & _ & ->)].
  - exists []. now rewrite app_nil_r.
  - rewrite keys_dict_set. destruct (dict_mem _ _).
    + exists []. now rewrite app_nil_r.
    + eauto.
Qed.

Lemma keys_student_records_run st acts :
  reachable st ->
  exists new,
    keys (student_records (run acts st)) = keys (student_records st) ++ new.
Proof.
  intros Hreach. revert st Hreach.
  induction acts as [|a acts IH]; intros st Hreach.
  - exists []. now rewrite app_nil_r.
  - assert (Hreach' : reachable (fst (perform a st)))
      by apply (reachable_run [a] st Hreach).
    destruct (IH _ Hreach') as [new2 E2].
    destruct (keys_roster_step a (view st)) as [new1 E1].
    rewrite <- view_perform in E1 by now apply reachable_invariant.
    cbn [view fst] in E1. rewrite !keys_roster_view in E1.
    exists (new1 ++ new2). cbn [run fold_left].
    fold (run acts (fst (perform a st))). now rewrite E2, E1, app_assoc.
Qed.

(** X4: the roster only grows, and keeps its order: after any sequence of
    actions the student names of the roster are those it had before, in
    the same order, followed by the names added since.  No record is ever
    removed, and saving a student again does not move the record. *)
Theorem roster_keeps_order st acts :
  reachable st ->
  exists new,
    keys (student_records (run acts st)) = keys (student_records st) ++ new.
Proof. apply keys_student_records_run. Qed.

Lemma roster_keeps_order_witness :
  reachable alice_saved
  /\ exists new,
      keys (student_records
              (run [StartSession "Bob"; AddMark "Art" "70"; Finalize;
                    StartSession "Alice"; AddMark "Art" "50"; Finalize]
                   alice_saved))
      = keys (student_records alice_saved) ++ new.
Proof.
  assert (Hreach : reachable alice_saved)
    by (apply reachable_run; eexists; reflexivity).
  split; [exact Hreach|].
  exact (roster_keeps_order alice_saved _ Hreach).
Defined.

(** ** The session *)

(** X5: in every reachable state a session without a name has no marks,
    and every mark of the session is a finite number within [0,100]. *)
Theorem session_marks_valid st :
  reachable st ->
  (session_marks st <> [] -> current_student_name st <> "")
  /\ forall module mark,
      dict_get (session_marks st) module = Some mark ->
      exists q, mark = finite q /\ (0 <= q)%Q /\ (q <= 100)%Q.
Proof.
  intros Hreach.
  destruct (reachable_invariant st Hreach) as (_ & _ & Hrange & Hname & _).
  split; [intros Hm Hn; now apply Hm, Hname|].
  intros module mark Hget. apply dict_get_In in Hget.
  unfold marks_in_range in Hrange. rewrite List.Forall_forall in Hrange.
  apply in_range_inv. exact (Hrange _ Hget).
Qed.

Lemma session_marks_valid_witness :
  reachable alice_two_marks
  /\ dict_get (session_marks alice_two_marks) "Eng" = Some (finite 90)
  /\ exists q, finite 90 = finite q /\ (0 <= q)%Q /\ (q <= 100)%Q.
Proof.
  assert (Hreach : reachable alice_two_marks) by (eexists; reflexivity).
  assert (Hget : dict_get (session_marks alice_two_marks) "Eng" = Some (finite 90))
    by reflexivity.
  split; [exact Hreach|]. split; [exact Hget|].
  exact (proj2 (session_marks_valid alice_two_marks Hreach) "Eng" (finite 90) Hget).
Defined.

(** X6: clear_all_fields shows no message box, empties the session name
    and marks and leaves the roster as it was; after it add_module_mark,
    finalize_student and view_live_report all report that no session is
    in progress, whatever is typed. *)
Theorem clear_all_fields_resets st :
  reachable st ->
  let st' := fst (clear_all_fields st) in
  snd (clear_all_fields st) = []
  /\ view st' = (roster_view st, "", [])
  /\ (forall txtModule txtMark,
         add_module_mark txtModule txtMark st' = (st', [ErrStartFirst]))
  /\ finalize_student st' = (st', [ErrNoSession])
  /\ view_live_report st' = (st', [WarnIncomplete]).
Proof.
  intros Hreach st'. pose proof (reachable_invariant st Hreach) as Hinv.
  split; [reflexivity|]. split; [|repeat split].
  apply (view_perform ClearAll st Hinv).
Qed.

Lemma clear_all_fields_resets_witness :
  reachable alice_two_marks
  /\ view (fst (clear_all_fields alice_two_marks))
     = (roster_view alice_two_marks, "", []).
Proof.
  assert (Hreach : reachable alice_two_marks) by (eexists; reflexivity).
  split; [exact Hreach|].
  exact (proj1 (proj2 (clear_all_fields_resets alice_two_marks Hreach))).
Defined.

(** ** A whole session *)

Lemma view_step_add_marks calls ws roster name session :
  name <> "" ->
  Forall2 writes_of calls ws ->
  fold_left (fun v a => view_step a v) (add_marks calls) (roster, name, session)
  = (roster, name, apply_writes session ws).
Proof.
  intros Hn Hcalls. revert session.
  induction Hcalls as [|c w calls ws Hc _ IH]; intros session; [reflexivity|].
  destruct Hc as (Hm & Hm' & Hk & Hp & Hr).
  cbn [add_marks map fold_left view_step].
  rewrite <- Hm in Hm'. apply String.eqb_neq in Hn, Hm', Hk.
  rewrite Hn, Hm', Hk, Hp, Hr. cbn [orb]. rewrite Hm.
  apply IH.
Qed.

Lemma apply_writes_nonempty d ws : d <> [] \/ ws <> [] -> apply_writes d ws <> [].
Proof.
  revert d. induction ws as [|w ws IH]; intros d [H|H]; try congruence.
  - exact H.
  - cbn [apply_writes fold_left]. apply IH. left.
    destruct d as [|[k v] r]; cbn [dict_set]; [discriminate|].
    destruct (k =? fst w)%string; discriminate.
  - cbn [apply_writes fold_left]. apply IH. left.
    destruct d as [|[k v] r]; cbn [dict_set]; [discriminate|].
    destruct (k =? fst w)%string; discriminate.
Qed.

(** X7: a whole session.  From any reachable state, confirming a name,
    entering at least one valid mark and saving stores under the stripped
    name exactly the marks written in turn (on top of the marks already in
    the session when the name was the one in progress), with their
    calculate_average and its get_grade; the session is empty afterwards
    and the records of the other students are as before. *)
Theorem session_round_trip st txtName calls ws :
  reachable st ->
  strip txtName <> "" ->
  Forall2 writes_of calls ws ->
  ws <> [] ->
  let name := strip txtName in
  let base := if (name =? current_student_name st)%string
              then session_marks st else [] in
  let d := apply_writes base ws in
  let st' := run (StartSession txtName :: add_marks calls ++ [Finalize]) st in
  dict_get (roster_view st') name
  = Some (d, calculate_average d, get_grade (Some (calculate_average d)))
  /\ current_student_name st' = ""
  /\ session_marks st' = []
  /\ forall other, other <> name ->
       dict_get (roster_view st') other = dict_get (roster_view st) other.
Proof.
  intros Hreach Hne Hcalls Hws name base d st'.
  pose proof (reachable_invariant st Hreach) as Hinv.
  assert (Hv : view st'
               = (dict_set (roster_view st) name
                    (d, calculate_average d, get_grade (Some (calculate_average d))),
                  "", [])).
  { subst st'. rewrite view_run by exact Hinv.
    cbn [fold_left]. rewrite fold_left_app.
    assert (Hstart : view_step (StartSession txtName) (view st)
                     = (roster_view st, name, base)).
    { unfold view. cbn [view_step]. fold name.
      apply String.eqb_neq in Hne. fold name in Hne. rewrite Hne. subst base.
      destruct (name =? current_student_name st)%string eqn:E; [|reflexivity].
      apply String.eqb_eq in E. now rewrite E. }
    rewrite Hstart, (view_step_add_marks calls ws) by assumption.
    cbn [fold_left view_step]. fold d.
    apply String.eqb_neq in Hne. fold name in Hne. rewrite Hne.
    assert (Hd : d <> []) by (apply apply_writes_nonempty; now right).
    destruct d; [congruence|reflexivity]. }
  unfold view in Hv. injection Hv as Hr Hn Hm. rewrite Hr.
  split; [apply dict_get_set_eq|]. split; [exact Hn|]. split; [exact Hm|].
  intros other Ho. apply dict_get_set_ne. congruence.
Qed.

Lemma session_round_trip_witness :
  reachable alice_saved
  /\ strip " Zoe " <> ""
  /\ Forall2 writes_of [("Quiz1", "55"); ("Quiz2", " 65 ")]
                       [("Quiz1", finite 55); ("Quiz2", finite 65)]
  /\ dict_get (roster_view
                 (run (StartSession " Zoe "
                       :: add_marks [("Quiz1", "55"); ("Quiz2", " 65 ")] ++ [Finalize])
                      alice_saved)) "Zoe"
     = Some ([("Quiz1", finite 55); ("Quiz2", finite 65)],
             calculate_average [("Quiz1", finite 55); ("Quiz2", finite 65)],
             "D").
Proof.
  assert (Hreach : reachable alice_saved)
    by (apply reachable_run; eexists; reflexivity).
  assert (Hne : strip " Zoe " <> "") by discriminate.
  assert (Hc : Forall2 writes_of [("Quiz1", "55"); ("Quiz2", " 65 ")]
                                 [("Quiz1", finite 55); ("Quiz2", finite 65)]).
  { repeat (apply List.Forall2_cons;
              [unfold writes_of; repeat split; try discriminate; reflexivity|]).
    apply List.Forall2_nil. }
  split; [exact Hreach|]. split; [exact Hne|]. split; [exact Hc|].
  exact (proj1 (session_round_trip alice_saved " Zoe " _ _ Hreach Hne Hc
                  ltac:(discriminate))).
Defined.

(** X8: the live report shows what would be saved: when view_live_report
    shows an average and a grade, finalize_student in the same state
    succeeds, announces the same average and grade, and stores them with
    the marks of the session under the name shown. *)
Theorem live_report_matches_saved st name avg g :
  reachable st ->
  snd (view_live_report st) = [InfoLive name avg g] ->
  snd (finalize_student st) = [InfoSaved name avg g]
  /\ dict_get (roster_view (fst (finalize_student st))) name
     = Some (session_marks st, avg, g).
Proof.
  intros Hreach. pose proof (reachable_invariant st Hreach) as Hinv.
  unfold view_live_report.
  destruct (current_student_name st =? "")%string eqn:En; [discriminate|].
  destruct (session_marks st) as [|e r] eqn:Em; [discriminate|].
  rewrite <- Em. intros [= <- <- <-]. apply String.eqb_neq in En.
  assert (Hm : session_marks st <> []) by congruence.
  split; [now rewrite (finalize_student_ok st En Hm)|].
  pose proof (f_equal (fun v => fst (fst v))
                (view_finalize_student st (proj1 Hinv) En Hm)) as Hr.
  cbn [view fst] in Hr. rewrite Hr. apply dict_get_set_eq.
Qed.

Lemma live_report_matches_saved_witness :
  reachable alice_two_marks
  /\ snd (view_live_report alice_two_marks)
     = [InfoLive "Alice" (finite 85) "B"]
  /\ snd (finalize_student alice_two_marks)
     = [InfoSaved "Alice" (finite 85) "B"].
Proof.
  assert (Hreach : reachable alice_two_marks) by (eexists; reflexivity).
  assert (Hl : snd (view_live_report alice_two_marks)
               = [InfoLive "Alice" (finite 85) "B"]) by reflexivity.
  split; [exact Hreach|]. split; [exact Hl|].
  exact (proj1 (live_report_matches_saved alice_two_marks _ _ _ Hreach Hl)).
Defined.

(** ** Grades, tags and the grading scale *)

Lemma get_grade_finite_in_range q :
  (0 <= q)%Q -> (q <= 100)%Q ->
  get_grade (Some (finite q))
  = if Qle_bool 90 q then "A"
    else if Qle_bool 80 q then "B"
    else if Qle_bool 70 q then "C"
    else if Qle_bool 60 q then "D"
    else "F".
Proof.
  intros H0 H1. unfold get_grade.
  destruct (in_range_guards (finite q)) as [-> ->]; [now apply in_range_finite|].
  rewrite sorted_boundaries. cbn [scan_boundaries].
  unfold float_ge, float_le, of_int, inject_Z.
  apply Qle_bool_iff in H0. change (0 # 1) with 0%Q. rewrite H0.
  repeat match goal with
         | |- context [Qle_bool ?a ?b] => destruct (Qle_bool a b)
         end; reflexivity.
Qed.

(** Decides every [Qle_bool] in sight and closes the goal by arithmetic. *)
Ltac decide_bounds :=
  repeat match goal with
         | |- context [Qle_bool ?a ?b] =>
             let E := fresh "E" in
             destruct (Qle_bool a b) eqn:E;
             [apply Qle_bool_iff in E
             |apply not_true_iff_false in E; rewrite Qle_bool_iff in E]
         | H : context [Qle_bool ?a ?b] |- _ =>
             let E := fresh "E" in
             destruct (Qle_bool a b) eqn:E;
             [apply Qle_bool_iff in E
             |apply not_true_iff_false in E; rewrite Qle_bool_iff in E]
         end.

(** X9: get_grade is monotone: of two averages within [0,100] the higher
    one never gets the grade with the lower minimum in GRADE_BOUNDARIES. *)
Theorem get_grade_monotone a b :
  in_range a = true -> in_range b = true -> float_le a b = true ->
  exists la lb,
    dict_get GRADE_BOUNDARIES (get_grade (Some a)) = Some la
    /\ dict_get GRADE_BOUNDARIES (get_grade (Some b)) = Some lb
    /\ (la <= lb)%Z.
Proof.
  intros Ha Hb Hab.
  destruct (in_range_inv _ Ha) as (qa & -> & Ha0 & Ha1).
  destruct (in_range_inv _ Hb) as (qb & -> & Hb0 & Hb1).
  unfold float_le in Hab. apply Qle_bool_iff in Hab.
  rewrite !get_grade_finite_in_range by assumption.
  decide_bounds; try (exfalso; lra);
    do 2 eexists; (split; [reflexivity|split; [reflexivity|lia]]).
Qed.

Lemma get_grade_monotone_witness :
  in_range (finite 69.999) = true /\ in_range (finite 70) = true
  /\ float_le (finite 69.999) (finite 70) = true
  /\ exists la lb,
      dict_get GRADE_BOUNDARIES (get_grade (Some (finite 69.999))) = Some la
      /\ dict_get GRADE_BOUNDARIES (get_grade (Some (finite 70))) = Some lb
      /\ (la <= lb)%Z.
Proof.
  split; [reflexivity|]. split; [reflexivity|]. split; [reflexivity|].
  apply (get_grade_monotone (finite 69.999) (finite 70)); reflexivity.
Defined.

Lemma grading_scale_lines :
  grading_scale
  = [("A", 90, 100); ("B", 80, 89); ("C", 70, 79); ("D", 60, 69); ("F", 0, 59)]%Z.
Proof. reflexivity. Qed.

Lemma get_grade_finite q :
  get_grade (Some (finite q))
  = if Qle_bool q 100
    then if Qle_bool 0 q
         then if Qle_bool 90 q then "A"
              else if Qle_bool 80 q then "B"
              else if Qle_bool 70 q then "C"
              else if Qle_bool 60 q then "D"
              else "F"
         else "F"
    else "A+".
Proof.
  unfold get_grade. rewrite sorted_boundaries. cbn [scan_boundaries].
  unfold float_gt, float_ge, float_lt, float_le, of_int, inject_Z, Qlt_bool.
  change (0 # 1) with 0%Q. change (100 # 1) with 100%Q.
  change (90 # 1) with 90%Q. change (80 # 1) with 80%Q.
  change (70 # 1) with 70%Q. change (60 # 1) with 60%Q.
  destruct (Qle_bool q 100); cbn [negb]; [|reflexivity].
  destruct (Qle_bool 0 q) eqn:E0; cbn [negb]; [|reflexivity].
  repeat match goal with
         | |- context [Qle_bool ?a ?b] => destruct (Qle_bool a b)
         end; reflexivity.
Qed.

(** X10: the grading scale printed under the report agrees with get_grade:
    an average between the lower and the upper bound shown for a grade gets
    that grade, and every whole average from 0 to 100 lies in one of the
    bands shown.  The bands do not cover [0,100]: an average within [0,100]
    lies in no band exactly when it is strictly between 59 and 60, 69 and
    70, 79 and 80 or 89 and 90 (it then gets the lower of the two grades). *)
Theorem grading_scale_agrees :
  (forall g lower upper avg,
      In (g, lower, upper) grading_scale ->
      float_le (of_int lower) avg = true ->
      float_le avg (of_int upper) = true ->
      get_grade (Some avg) = g)
  /\ (forall n : Z,
         (0 <= n <= 100)%Z ->
         exists g lower upper,
           In (g, lower, upper) grading_scale /\ (lower <= n <= upper)%Z)
  /\ (forall q,
         (0 <= q)%Q -> (q <= 100)%Q ->
         (forall g lower upper,
             In (g, lower, upper) grading_scale ->
             ~ (inject_Z lower <= q /\ q <= inject_Z upper)%Q)
         <-> (59 < q /\ q < 60 \/ 69 < q /\ q < 70
              \/ 79 < q /\ q < 80 \/ 89 < q /\ q < 90)%Q).
Proof.
  rewrite grading_scale_lines. split; [|split].
  - intros g lower upper [q|[]|] Hin Hlo Hup; try discriminate.
    unfold float_le, of_int in Hlo, Hup.
    apply Qle_bool_iff in Hlo, Hup. rewrite get_grade_finite.
    cbn [In] in Hin.
    repeat (destruct Hin as [[= <- <- <-]|Hin];
            [unfold inject_Z in Hlo, Hup;
             decide_bounds; try reflexivity; exfalso; lra|]).
    destruct Hin.
  - intros n Hn. cbn [In].
    destruct (Z_le_gt_dec 90 n); [exists "A", 90%Z, 100%Z; split; [auto|lia]|].
    destruct (Z_le_gt_dec 80 n); [exists "B", 80%Z, 89%Z; split; [auto|lia]|].
    destruct (Z_le_gt_dec 70 n); [exists "C", 70%Z, 79%Z; split; [auto 6|lia]|].
    destruct (Z_le_gt_dec 60 n); [exists "D", 60%Z, 69%Z; split; [auto 6|lia]|].
    exists "F", 0%Z, 59%Z. split; [auto 8|lia].
  - intros q H0 H1. split.
    + intros Hnone.
      pose proof (Hnone "A" 90%Z 100%Z ltac:(cbn; auto)) as HA.
      pose proof (Hnone "B" 80%Z 89%Z ltac:(cbn; auto)) as HB.
      pose proof (Hnone "C" 70%Z 79%Z ltac:(cbn; auto 6)) as HC.
      pose proof (Hnone "D" 60%Z 69%Z ltac:(cbn; auto 6)) as HD.
      pose proof (Hnone "F" 0%Z 59%Z ltac:(cbn; auto 8)) as HF.
      unfold inject_Z in *. lra.
    + intros Hgap g lower upper Hin. cbn [In] in Hin.
      repeat (destruct Hin as [[= <- <- <-]|Hin];
              [unfold inject_Z; lra|]).
      destruct Hin.
Qed.

Lemma grading_scale_agrees_witness :
  In ("B", 80%Z, 89%Z) grading_scale
  /\ float_le (of_int 80) (finite 85.5) = true
  /\ float_le (finite 85.5) (of_int 89) = true
  /\ get_grade (Some (finite 85.5)) = "B".
Proof.
  assert (Hin : In ("B", 80%Z, 89%Z) grading_scale) by (cbn; auto).
  split; [exact Hin|]. split; [reflexivity|]. split; [reflexivity|].
  exact (proj1 grading_scale_agrees "B" 80%Z 89%Z (finite 85.5) Hin
           eq_refl eq_refl).
Defined.

(** X11: the colour of a grade follows the average: the tag chosen for
    get_grade of an average is high_grade exactly when the average is at
    least 90 (which includes the "A+" of an average above 100), mid_grade
    exactly when it is at least 70 and below 90, and low_grade otherwise,
    which includes nan and a missing average (grade "N/A"). *)
Theorem grade_tag_by_average :
  (forall avg,
      (grade_tag (get_grade (Some avg)) = high_grade
       <-> float_le (of_int 90) avg = true)
      /\ (grade_tag (get_grade (Some avg)) = mid_grade
          <-> float_le (of_int 70) avg = true /\ float_lt avg (of_int 90) = true)
      /\ (grade_tag (get_grade (Some avg)) = low_grade
          <-> float_le (of_int 70) avg = false))
  /\ grade_tag (get_grade None) = low_grade.
Proof.
  split; [|reflexivity].
  intros [q|[]|]; try (cbn; intuition discriminate).
  rewrite get_grade_finite.
  unfold float_le, float_lt, of_int, inject_Z, Qlt_bool.
  change (90 # 1) with 90%Q. change (70 # 1) with 70%Q.
  decide_bounds; cbn; try (exfalso; lra);
    repeat split; try reflexivity; try discriminate;
    intros; try (exfalso; lra); intuition discriminate.
Qed.

(** ** The text of the summary report *)

Lemma append_cons c (r b : string) :
  (String c r ++ b)%string = String c (r ++ b)%string.
Proof. reflexivity. Qed.

Lemma append_nil_r (s : string) : (s ++ "")%string = s.
Proof. induction s as [|c r IH]; [reflexivity|]. now rewrite append_cons, IH. Qed.

Lemma append_assoc (a b c : string) :
  ((a ++ b) ++ c)%string = (a ++ (b ++ c))%string.
Proof.
  induction a as [|x r IH]; [reflexivity|]. now rewrite !append_cons, IH.
Qed.

Lemma append_empty (a b : string) : (a ++ b)%string = "" -> a = "" /\ b = "".
Proof. destruct a; [auto|discriminate]. Qed.

Lemma length_append (a b : string) :
  String.length (a ++ b) = (String.length a + String.length b)%nat.
Proof.
  induction a as [|x r IH]; [reflexivity|].
  rewrite append_cons. cbn [String.length]. now rewrite IH.
Qed.

Lemma has_space_append a b : has_space (a ++ b) = has_space a || has_space b.
Proof.
  induction a as [|x r IH]; [reflexivity|].
  rewrite append_cons. cbn [has_space]. now rewrite IH, orb_assoc.
Qed.

Lemma split_from_app word a b :
  split_from word (a ++ b)
  = fst (split_state word a) ++ split_from (snd (split_state word a)) b.
Proof.
  revert word. induction a as [|c r IH]; intros word; [reflexivity|].
  rewrite append_cons. cbn [split_from split_state].
  destruct (isspace c); [|apply IH].
  destruct (word =? "")%string; [apply IH|].
  cbn [fst snd]. rewrite IH. reflexivity.
Qed.

Lemma split_state_no_space word a :
  has_space a = false -> split_state word a = ([], (word ++ a)%string).
Proof.
  revert word. induction a as [|c r IH]; intros word H.
  - now rewrite append_nil_r.
  - cbn [has_space] in H. apply orb_false_iff in H. destruct H as [Hc Hr].
    cbn [split_state]. rewrite Hc, IH by exact Hr.
    now rewrite append_assoc.
Qed.

Lemma split_state_has_space word a :
  has_space a = true -> word <> "" -> fst (split_state word a) <> [].
Proof.
  revert word. induction a as [|c r IH]; intros word H Hw; [discriminate|].
  cbn [has_space] in H. cbn [split_state].
  destruct (isspace c).
  - apply String.eqb_neq in Hw. rewrite Hw. discriminate.
  - apply IH; [exact H|]. intros E. now apply append_empty in E as [_ ?].
Qed.

Lemma split_state_pending word a :
  a <> "" -> rstrip a = a -> snd (split_state word a) <> "".
Proof.
  revert word. induction a as [|c r IH]; intros word Ha Hr; [congruence|].
  cbn [rstrip] in Hr.
  destruct (isspace c && (rstrip r =? "")%string) eqn:E; [discriminate|].
  injection Hr as Hr. destruct r as [|c' r'].
  - cbn [rstrip] in E. rewrite String.eqb_refl, andb_true_r in E.
    cbn [split_state]. rewrite E. cbn [snd].
    intros H. now apply append_empty in H as [_ ?].
  - cbn [split_state]. destruct (isspace c).
    + destruct (word =? "")%string; [|cbn [snd]]; now apply IH.
    + now apply IH.
Qed.

Lemma split_from_spaces word n b :
  split_from word (repeat_string " " n ++ b)
  = match n with
    | O => split_from word b
    | S _ => (if (word =? "")%string then [] else [word]) ++ split_from "" b
    end.
Proof.
  destruct n as [|n]; [reflexivity|].
  assert (H : forall m, split_from "" (repeat_string " " m ++ b) = split_from "" b).
  { induction m as [|m IH]; [reflexivity|]. exact IH. }
  cbn [repeat_string]. rewrite append_assoc, append_cons. cbn [split_from].
  change (isspace " ") with true. cbn iota. change ("" ++ ?x)%string with x.
  destruct (word =? "")%string; rewrite (H n); reflexivity.
Qed.

Lemma isspace_digit_char d : (0 <= d <= 9)%Z -> isspace (digit_char d) = false.
Proof.
  intros H.
  assert (E : (d = 0 \/ d = 1 \/ d = 2 \/ d = 3 \/ d = 4 \/ d = 5 \/ d = 6
               \/ d = 7 \/ d = 8 \/ d = 9)%Z) by lia.
  repeat (destruct E as [->|E]; [reflexivity|]). now subst d.
Qed.

Lemma mod_10_digit n : (0 <= n mod 10 <= 9)%Z.
Proof. pose proof (Z.mod_pos_bound n 10 ltac:(lia)). lia. Qed.

Lemma has_space_digits_fuel fuel n acc :
  has_space (digits_fuel fuel n acc) = has_space acc.
Proof.
  revert n acc. induction fuel as [|f IH]; intros n acc; [reflexivity|].
  cbn [digits_fuel].
  assert (E : has_space (String (digit_char (n mod 10)) acc) = has_space acc).
  { cbn [has_space]. now rewrite isspace_digit_char by apply mod_10_digit. }
  destruct (n / 10 =? 0)%Z; [exact E|]. now rewrite IH.
Qed.

Lemma length_digits_fuel_le fuel n acc k :
  (0 <= n < 10 ^ Z.of_nat k)%Z -> (1 <= k)%nat ->
  (String.length (digits_fuel fuel n acc) <= k + String.length acc)%nat.
Proof.
  revert n acc k. induction fuel as [|f IH]; intros n acc k Hn Hk; [simpl; lia|].
  cbn [digits_fuel]. destruct (n / 10 =? 0)%Z eqn:E.
  - cbn [String.length]. lia.
  - apply Z.eqb_neq in E.
    assert (Hk2 : (2 <= k)%nat).
    { destruct k as [|[|k]]; [lia| |lia]. exfalso. apply E.
      apply Z.div_small. change (10 ^ Z.of_nat 1)%Z with 10%Z in Hn. lia. }
    specialize (IH (n / 10)%Z (String (digit_char (n mod 10)) acc) (k - 1)%nat).
    cbn [String.length] in IH.
    assert (Hdiv : (0 <= n / 10 < 10 ^ Z.of_nat (k - 1))%Z).
    { split; [apply Z.div_pos; lia|].
      apply Z.div_lt_upper_bound; [lia|].
      replace (10 * 10 ^ Z.of_nat (k - 1))%Z with (10 ^ Z.of_nat k)%Z; [lia|].
      replace (Z.of_nat k) with (Z.succ (Z.of_nat (k - 1))) by lia.
      rewrite Z.pow_succ_r by lia. reflexivity. }
    specialize (IH Hdiv ltac:(lia)). lia.
Qed.

Lemma length_digits_fuel_ge fuel n acc :
  (String.length acc <= String.length (digits_fuel fuel n acc))%nat.
Proof.
  revert n acc. induction fuel as [|f IH]; intros n acc; [simpl; lia|].
  cbn [digits_fuel]. destruct (n / 10 =? 0)%Z.
  - cbn [String.length]. lia.
  - specialize (IH (n / 10)%Z (String (digit_char (n mod 10)) acc)).
    cbn [String.length] in IH. lia.
Qed.

Lemma digits_facts n k :
  (0 <= n < 10 ^ Z.of_nat k)%Z -> (1 <= k)%nat ->
  has_space (digits n) = false
  /\ (1 <= String.length (digits n) <= k)%nat.
Proof.
  intros Hn Hk. unfold digits. split; [apply has_space_digits_fuel|]. split.
  - cbn [digits_fuel]. destruct (n / 10 =? 0)%Z; [simpl; lia|].
    pose proof (length_digits_fuel_ge (Z.to_nat (Z.log2 n)) (n / 10)%Z
                  (String (digit_char (n mod 10)) "")) as H.
    cbn [String.length] in H. lia.
  - pose proof (length_digits_fuel_le (S (Z.to_nat (Z.log2 n))) n "" k Hn Hk) as H.
    cbn [String.length] in H. lia.
Qed.

Lemma format_2f_in_range avg :
  in_range avg = true ->
  has_space (format_2f avg) = false
  /\ (1 <= String.length (format_2f avg) < 10)%nat.
Proof.
  intros Hr. destruct (in_range_inv _ Hr) as (q & -> & H0 & H1).
  unfold format_2f.
  set (n := round_half_even (Z.abs (Qnum q) * 100) (Z.pos (Qden q))).
  assert (Hnum : (0 <= Qnum q)%Z).
  { unfold Qle in H0. simpl in H0. lia. }
  assert (Hn : (0 <= n <= 10000)%Z).
  { apply round_half_even_bounds; [lia|lia|].
    unfold Qle in H1. simpl in H1. lia. }
  assert (Hsign : (Qnum q <? 0)%Z = false) by now apply Z.ltb_ge.
  rewrite Hsign. change ("" ++ ?x)%string with x.
  destruct (digits_facts (n / 100)%Z 3) as (Hs & Hl1 & Hl2).
  { split; [apply Z.div_pos; lia|].
    apply Z.div_lt_upper_bound; [lia|]. change (10 ^ Z.of_nat 3)%Z with 1000%Z. lia. }
  { lia. }
  change ("." ++ ?x)%string with (String "." x).
  rewrite has_space_append, length_append, Hs. cbn [has_space String.length orb].
  split; [|lia].
  change (isspace ".") with false. cbn [orb].
  rewrite !isspace_digit_char; [reflexivity|apply mod_10_digit|].
  pose proof (Z.mod_pos_bound n 100 ltac:(lia)).
  split; [apply Z.div_pos; lia|].
  assert (n mod 100 / 10 < 10)%Z by (apply Z.div_lt_upper_bound; lia). lia.
Qed.

Lemma str_int_count modules :
  (Z.of_nat modules < 10 ^ 9)%Z ->
  has_space (str_int (Z.of_nat modules)) = false
  /\ (1 <= String.length (str_int (Z.of_nat modules)) < 10)%nat.
Proof.
  intros H. unfold str_int.
  assert (E : (Z.of_nat modules <? 0)%Z = false) by (apply Z.ltb_ge; lia).
  rewrite E.
  destruct (digits_facts (Z.of_nat modules) 9) as (Hs & Hl1 & Hl2);
    [split; [lia|exact H]|lia|].
  split; [exact Hs|lia].
Qed.

Lemma letter_grade_facts g :
  In g letter_grades -> has_space g = false /\ String.length g = 1%nat.
Proof.
  unfold letter_grades. cbn [In].
  intros H. repeat (destruct H as [<-|H]; [split; reflexivity|]). destruct H.
Qed.

Lemma split_from_token word t n b :
  has_space t = false -> (word ++ t)%string <> "" ->
  split_from word (t ++ repeat_string " " (S n) ++ b)
  = (word ++ t)%string :: split_from "" b.
Proof.
  intros Ht Hw. rewrite split_from_app, split_state_no_space by exact Ht.
  cbn [fst snd app]. rewrite split_from_spaces.
  apply String.eqb_neq in Hw. now rewrite Hw.
Qed.

Lemma split_from_last word t n :
  has_space t = false -> (word ++ t)%string <> "" ->
  split_from word (t ++ repeat_string " " n ++ newline) = [(word ++ t)%string].
Proof.
  intros Ht Hw. rewrite split_from_app, split_state_no_space by exact Ht.
  cbn [fst snd app]. rewrite split_from_spaces.
  apply String.eqb_neq in Hw.
  destruct n; [|now rewrite Hw].
  unfold newline. cbn [split_from]. change (isspace (ascii_of_N 10)) with true.
  cbn iota. now rewrite Hw.
Qed.

Lemma ljust_append s width b :
  (ljust s width ++ b)%string
  = (s ++ repeat_string " " (width - String.length s) ++ b)%string.
Proof. unfold ljust. apply append_assoc. Qed.

Lemma nonempty_length (s : string) : (1 <= String.length s)%nat -> s <> "".
Proof. destruct s; simpl; [lia|discriminate]. Qed.

(** The words of the part of a line after the name. *)
Lemma split_from_columns word d f g :
  has_space d = false -> has_space f = false -> has_space g = false ->
  (1 <= String.length d < 10)%nat ->
  (1 <= String.length f < 10)%nat ->
  (1 <= String.length g)%nat ->
  split_from word (ljust d 10 ++ ljust f 10 ++ ljust g 8 ++ newline)
  = [(word ++ d)%string; f; g].
Proof.
  intros Hd Hf Hg Ld Lf Lg.
  rewrite !ljust_append.
  replace (10 - String.length d)%nat with (S (9 - String.length d)) by lia.
  replace (10 - String.length f)%nat with (S (9 - String.length f)) by lia.
  rewrite split_from_token; [|exact Hd|].
  2:{ intros E. apply append_empty in E as [_ E]. subst d. simpl in Ld. lia. }
  rewrite split_from_token; [|exact Hf|now apply nonempty_length].
  rewrite split_from_last; [reflexivity|exact Hg|now apply nonempty_length].
Qed.

Lemma trimmed_inv name :
  trimmed name ->
  rstrip name = name
  /\ exists c r, name = String c r /\ isspace c = false.
Proof.
  intros [Hne Hs].
  assert (Hl : lstrip name = name).
  { rewrite <- Hs at 1. unfold strip. rewrite lstrip_rstrip_lstrip. exact Hs. }
  split.
  - unfold strip in Hs. now rewrite Hl in Hs.
  - destruct (lstrip_head name) as [E|(c & r & E & Hc)]; rewrite Hl in E.
    + congruence.
    + eauto.
Qed.

(** The words of a whole line. *)
Lemma split_report_line name modules avg grade :
  trimmed name ->
  (Z.of_nat modules < 10 ^ 9)%Z ->
  in_range avg = true ->
  In grade letter_grades ->
  let completed := fst (split_state "" name) in
  let last := snd (split_state "" name) in
  last <> ""
  /\ (completed = [] <-> has_space name = false)
  /\ split (report_line name modules avg grade)
     = if (String.length name <? 15)%nat
       then completed ++ [last; str_int (Z.of_nat modules); format_2f avg; grade]
       else completed ++ [(last ++ str_int (Z.of_nat modules))%string;
                          format_2f avg; grade].
Proof.
  intros Hname Hmod Havg Hgrade completed last.
  destruct (trimmed_inv name Hname) as (Hr & c & r & Ec & Hc).
  destruct (str_int_count modules Hmod) as (Hd & Ld).
  destruct (format_2f_in_range avg Havg) as (Hf & Lf).
  destruct (letter_grade_facts grade Hgrade) as (Hg & Lg).
  assert (Hlast : last <> "").
  { apply split_state_pending; [apply Hname|exact Hr]. }
  split; [exact Hlast|]. split.
  - subst completed. split.
    + intros E. destruct (has_space name) eqn:Hs; [|reflexivity].
      exfalso. revert E. rewrite Ec. cbn [split_state]. rewrite Hc.
      apply split_state_has_space; [|discriminate].
      rewrite Ec in Hs. cbn [has_space] in Hs. now rewrite Hc in Hs.
    + intros Hs. now rewrite split_state_no_space.
  - unfold split, report_line. rewrite ljust_append, split_from_app.
    fold completed last. f_equal.
    destruct (String.length name <? 15)%nat eqn:El.
    + apply Nat.ltb_lt in El.
      replace (15 - String.length name)%nat
        with (S (14 - String.length name)) by lia.
      rewrite split_from_spaces. apply String.eqb_neq in Hlast. rewrite Hlast.
      cbn [app]. f_equal. rewrite split_from_columns by (assumption || lia).
      reflexivity.
    + apply Nat.ltb_ge in El.
      replace (15 - String.length name)%nat with 0%nat by lia.
      rewrite split_from_spaces.
      now rewrite split_from_columns by (assumption || lia).
Qed.

Lemma report_line_fourth_word_aux name modules avg grade :
  trimmed name ->
  (Z.of_nat modules < 10 ^ 9)%Z ->
  in_range avg = true ->
  In grade letter_grades ->
  split (report_line name modules avg grade) !! 3%nat = None
  <-> breaks_report name.
Proof.
  intros Hname Hmod Havg Hgrade.
  destruct (split_report_line name modules avg grade Hname Hmod Havg Hgrade)
    as (Hlast & Hcompleted & ->).
  unfold breaks_report.
  destruct (String.length name <? 15)%nat eqn:El.
  - apply Nat.ltb_lt in El. split.
    + intros H. apply lookup_ge_None in H. rewrite length_app in H.
      simpl in H. lia.
    + intros [H _]. lia.
  - apply Nat.ltb_ge in El. rewrite <- Hcompleted. split.
    + intros H. split; [exact El|].
      apply lookup_ge_None in H. rewrite length_app in H. simpl in H.
      destruct (fst (split_state "" name)); [reflexivity|simpl in H; lia].
    + intros [_ ->]. reflexivity.
Qed.

Lemma report_line_words name modules avg grade :
  trimmed name ->
  (Z.of_nat modules < 10 ^ 9)%Z ->
  in_range avg = true ->
  In grade letter_grades ->
  has_space name = false -> (String.length name < 15)%nat ->
  split (report_line name modules avg grade)
  = [name; str_int (Z.of_nat modules); format_2f avg; grade].
Proof.
  intros Hname Hmod Havg Hgrade Hs Hl.
  destruct (split_report_line name modules avg grade Hname Hmod Havg Hgrade)
    as (Hlast & Hcompleted & ->).
  apply Nat.ltb_lt in Hl. rewrite Hl.
  rewrite (proj2 Hcompleted Hs). rewrite split_state_no_space by exact Hs.
  reflexivity.
Qed.

(** X12: the fourth word of a report line.  For a stored student name, a
    module count below 10^9, an average within [0,100] and a grade A to F,
    [line.split()[3]] does not exist exactly when the name has 15 or more
    characters and no white space (its column then runs into the module
    count); for a shorter name without white space the words of the line
    are the name, the count, the average and the grade, so the fourth is
    the grade. *)
Theorem report_line_fourth_word name modules avg grade :
  trimmed name ->
  (Z.of_nat modules < 10 ^ 9)%Z ->
  in_range avg = true ->
  In grade letter_grades ->
  (split (report_line name modules avg grade) !! 3%nat = None
   <-> breaks_report name)
  /\ (has_space name = false -> (String.length name < 15)%nat ->
      split (report_line name modules avg grade)
      = [name; str_int (Z.of_nat modules); format_2f avg; grade]).
Proof.
  intros Hname Hmod Havg Hgrade. split.
  - now apply report_line_fourth_word_aux.
  - now apply report_line_words.
Qed.

Lemma report_line_fourth_word_witness :
  trimmed "Bartholomew-Smith"
  /\ (Z.of_nat 2 < 10 ^ 9)%Z
  /\ in_range (finite 85) = true
  /\ In "B" letter_grades
  /\ breaks_report "Bartholomew-Smith"
  /\ split (report_line "Bartholomew-Smith" 2 (finite 85) "B") !! 3%nat = None.
Proof.
  assert (H1 : trimmed "Bartholomew-Smith") by (split; [discriminate|reflexivity]).
  assert (H2 : (Z.of_nat 2 < 10 ^ 9)%Z) by reflexivity.
  assert (H3 : in_range (finite 85) = true) by reflexivity.
  assert (H4 : In "B" letter_grades) by (cbn; auto).
  assert (H5 : breaks_report "Bartholomew-Smith")
    by (split; [cbn; lia|reflexivity]).
  repeat (split; [assumption|]).
  exact (proj2 (proj1 (report_line_fourth_word _ _ _ _ H1 H2 H3 H4)) H5).
Defined.

Lemma report_row_outcome h entry :
  snd (report_row h entry) = IndexError
  <-> split (report_line (fst entry) (length (deref h (marks (snd entry))))
                         (average (snd entry)) (grade (snd entry))) !! 3%nat
      = None.
Proof.
  unfold report_row.
  destruct (split _ !! 3%nat); cbn [snd]; split; congruence.
Qed.

Lemma report_rows_outcome h records :
  snd (report_rows h records) = IndexError
  <-> Exists (fun entry => snd (report_row h entry) = IndexError) records.
Proof.
  induction records as [|entry rest IH]; cbn [report_rows].
  - split; [discriminate|]. intros H. inversion H.
  - destruct (report_row h entry) as [ops out] eqn:E.
    destruct out.
    + destruct (report_rows h rest) as [ops' out']. cbn [snd] in *.
      rewrite IH. split.
      * intros H. now apply Exists_cons_tl.
      * intros H. inversion H as [? ? H1|? ? H1]; subst; [|exact H1].
        rewrite E in H1. discriminate.
    + cbn [snd]. split; [|reflexivity]. intros _. apply Exists_cons_hd.
      now rewrite E.
Qed.

Lemma reachable_names_ok st : reachable st -> names_ok (view st).
Proof.
  apply (reachable_view_ind names_ok); [|exact names_ok_step].
  repeat split; constructor.
Qed.

(** What is known of every roster record of a reachable state. *)
Lemma reachable_record st name r :
  reachable st -> In (name, r) (student_records st) ->
  trimmed name
  /\ grade r = get_grade (Some (average r))
  /\ ((Z.of_nat (length (deref (store st) (marks r))) < 2 ^ 46)%Z ->
      in_range (average r) = true /\ In (grade r) letter_grades).
Proof.
  intros Hreach Hin.
  destruct (reachable_invariant st Hreach) as (_ & _ & _ & _ & Hroster).
  destruct (Hroster name r Hin) as (_ & Hd & Hr & Havg & Hg).
  pose proof (reachable_names_ok st Hreach) as Hn.
  unfold view, names_ok in Hn. destruct Hn as (_ & _ & _ & Ht & _).
  rewrite keys_roster_view in Ht. rewrite List.Forall_forall in Ht.
  split; [apply Ht; now apply (in_map fst _ (name, r))|].
  split; [exact Hg|]. intros Hlen.
  destruct (calculate_average_in_range _ Hd Hr Hlen) as (_ & _ & _ & _ & _ & _ & E).
  rewrite <- Havg in E. split; [exact E|]. rewrite Hg. now apply get_grade_letter.
Qed.

Lemma update_summary_list_rows st :
  snd (update_summary_list st) = snd (report_rows (store st) (student_records st)).
Proof.
  unfold update_summary_list.
  destruct (student_records st) as [|e rest]; [reflexivity|].
  destruct (report_rows (store st) (e :: rest)) as [rows []]; reflexivity.
Qed.




(** The digits written by [digits] are those of the number: read back by
    the digit reader of [float] they give it again. *)
Lemma digit_char_value d :
  (0 <= d <= 9)%Z -> isdigit (digit_char d) = true /\ digit_value (digit_char d) = d.
Proof.
  intros H.
  assert (E : (d = 0 \/ d = 1 \/ d = 2 \/ d = 3 \/ d = 4 \/ d = 5 \/ d = 6
               \/ d = 7 \/ d = 8 \/ d = 9)%Z) by lia.
  repeat (destruct E as [->|E]; [split; reflexivity|]). subst d. split; reflexivity.
Qed.

Lemma read_digits_digits_fuel fuel n acc a c :
  (0 <= n < 10 ^ Z.of_nat fuel)%Z ->
  exists k, read_digits a c (digits_fuel fuel n acc)
            = read_digits (a * 10 ^ Z.of_nat k + n) (c + k) acc.
Proof.
  revert n acc a c. induction fuel as [|f IH]; intros n acc a c Hn.
  - exists 0%nat. change (10 ^ Z.of_nat 0)%Z with 1%Z in *.
    assert (n = 0)%Z by lia. subst n. cbn [digits_fuel].
    f_equal; [lia|]. lia.
  - cbn [digits_fuel].
    destruct (digit_char_value (n mod 10) (mod_10_digit n)) as [Hd Hv].
    pose proof (Z.div_mod n 10 ltac:(lia)) as Hdm.
    destruct (n / 10 =? 0)%Z eqn:E.
    + apply Z.eqb_eq in E. exists 1%nat. cbn [read_digits]. rewrite Hd, Hv.
      f_equal; [|lia]. change (10 ^ Z.of_nat 1)%Z with 10%Z. lia.
    + assert (Hdiv : (0 <= n / 10 < 10 ^ Z.of_nat f)%Z).
      { split; [apply Z.div_pos; lia|].
        apply Z.div_lt_upper_bound; [lia|].
        rewrite Nat2Z.inj_succ, Z.pow_succ_r in Hn by lia. lia. }
      destruct (IH (n / 10)%Z (String (digit_char (n mod 10)) acc) a c Hdiv)
        as [k Hk].
      exists (S k). rewrite Hk. cbn [read_digits]. rewrite Hd, Hv.
      f_equal; [|lia]. rewrite Nat2Z.inj_succ, Z.pow_succ_r by lia. lia.
Qed.

Lemma read_digits_digits n :
  (0 <= n)%Z -> exists k, read_digits 0%Z 0%nat (digits n) = (n, k, "").
Proof.
  intros Hn. unfold digits.
  destruct (read_digits_digits_fuel (S (Z.to_nat (Z.log2 n))) n "" 0%Z 0%nat)
    as [k Hk].
  - split; [exact Hn|].
    destruct (Z.eq_dec n 0%Z) as [->|Hne]; [reflexivity|].
    pose proof (Z.log2_spec n ltac:(lia)) as [_ Hlog].
    pose proof (Z.log2_nonneg n) as Hnn.
    rewrite Nat2Z.inj_succ, Z2Nat.id by exact Hnn.
    eapply Z.lt_le_trans; [exact Hlog|].
    apply Z.pow_le_mono_l. lia.
  - exists k. rewrite Hk. reflexivity.
Qed.

(** ** More on the report and on repeated entries *)

Lemma In_keys_run_finalize st acts :
  reachable st ->
  current_student_name st <> "" -> session_marks st <> [] ->
  In (current_student_name st)
     (keys (student_records (run acts (fst (finalize_student st))))).
Proof.
  intros Hreach Hn Hm.
  assert (Hreach' : reachable (fst (finalize_student st)))
    by apply (reachable_run [Finalize] st Hreach).
  destruct (keys_student_records_run _ acts Hreach') as [new ->].
  apply in_or_app. left.
  rewrite (finalize_student_ok st Hn Hm). cbn [fst student_records].
  apply dict_mem_In. unfold dict_mem. now rewrite dict_get_set_eq.
Qed.

(** The words of a line never grow by more than one for each column. *)
Lemma length_split_from_nonempty w1 w2 s :
  w1 <> "" -> w2 <> "" ->
  length (split_from w1 s) = length (split_from w2 s).
Proof.
  revert w1 w2. induction s as [|c r IH]; intros w1 w2 H1 H2.
  - cbn [split_from]. apply String.eqb_neq in H1, H2. now rewrite H1, H2.
  - cbn [split_from]. destruct (isspace c).
    + apply String.eqb_neq in H1, H2. now rewrite H1, H2.
    + apply IH; intros E; apply append_empty in E as [_ E]; discriminate.
Qed.

Lemma length_split_from_le w s :
  (length (split_from w s) <= S (length (split_from "" s)))%nat.
Proof.
  destruct (String.eqb_spec w "") as [->|Hw]; [lia|].
  destruct s as [|c r].
  - cbn [split_from]. apply String.eqb_neq in Hw. rewrite Hw. simpl. lia.
  - cbn [split_from]. destruct (isspace c).
    + apply String.eqb_neq in Hw. rewrite Hw. simpl. lia.
    + rewrite (length_split_from_nonempty _ ("" ++ String c "") r); [lia| |discriminate].
      intros E. apply append_empty in E as [_ E]. discriminate.
Qed.

Lemma length_split_from_token w t n rest :
  has_space t = false ->
  (length (split_from w (t ++ repeat_string " " n ++ rest))
   <= S (length (split_from "" rest)))%nat.
Proof.
  intros Ht. rewrite split_from_app, split_state_no_space by exact Ht.
  cbn [fst snd app]. rewrite split_from_spaces. destruct n as [|n].
  - apply length_split_from_le.
  - destruct (w ++ t =? "")%string; simpl; lia.
Qed.

Lemma has_space_str_int z : has_space (str_int z) = false.
Proof.
  unfold str_int, digits. destruct (z <? 0)%Z.
  - change ("-" ++ ?x)%string with (String "-" x). cbn [has_space].
    now rewrite has_space_digits_fuel.
  - now rewrite has_space_digits_fuel.
Qed.

Lemma has_space_format_2f x : has_space (format_2f x) = false.
Proof.
  destruct x as [q|[]|]; try reflexivity. unfold format_2f.
  set (n := round_half_even _ _).
  rewrite has_space_append. unfold digits at 1.
  change ("." ++ ?x)%string with (String "." x).
  rewrite has_space_append, has_space_digits_fuel. cbn [has_space orb].
  change (isspace ".") with false. cbn [orb].
  pose proof (Z.mod_pos_bound n 100 ltac:(lia)) as H100.
  rewrite !isspace_digit_char.
  - now destruct (Qnum q <? 0)%Z.
  - apply mod_10_digit.
  - split; [apply Z.div_pos; lia|].
    assert (n mod 100 / 10 < 10)%Z by (apply Z.div_lt_upper_bound; lia). lia.
Qed.

Lemma has_space_get_grade avg : has_space (get_grade avg) = false.
Proof.
  unfold get_grade. destruct avg as [avg|]; [|reflexivity].
  destruct (float_gt avg (of_int 100)); [reflexivity|].
  destruct (float_lt avg (of_int 0)); [reflexivity|].
  rewrite sorted_boundaries. cbn [scan_boundaries].
  repeat (destruct (float_ge avg _); [reflexivity|]). reflexivity.
Qed.

(** A line whose name fills its column has at most three words, whatever
    the module count, the average and the grade. *)
Lemma report_line_long_name name modules avg grade :
  breaks_report name -> has_space grade = false ->
  split (report_line name modules avg grade) !! 3%nat = None.
Proof.
  intros [Hl Hs] Hg. apply lookup_ge_None. unfold split, report_line.
  rewrite !ljust_append.
  replace (15 - String.length name)%nat with 0%nat by lia.
  cbn [repeat_string]. change ("" ++ ?x)%string with x.
  rewrite <- append_assoc.
  eapply Nat.le_trans.
  { apply length_split_from_token.
    now rewrite has_space_append, Hs, has_space_str_int. }
  apply le_n_S. eapply Nat.le_trans.
  { apply length_split_from_token. apply has_space_format_2f. }
  apply le_n_S. eapply Nat.le_trans.
  { apply length_split_from_token. exact Hg. }
  reflexivity.
Qed.

(** X14: a name that breaks the report breaks it for good.  When the
    student of the session has a name of 15 or more characters without
    white space and at least one mark, finalize_student stores the record,
    and update_summary_list, which finalize_student and view_live_report
    call last, raises IndexError in the state reached and in every state
    reached later, whatever is entered: the roster never loses the
    name. *)
Theorem long_name_breaks_report_for_good st acts :
  reachable st ->
  breaks_report (current_student_name st) ->
  session_marks st <> [] ->
  let st' := run acts (fst (finalize_student st)) in
  In (current_student_name st) (keys (student_records st'))
  /\ snd (update_summary_list st') = IndexError.
Proof.
  intros Hreach Hbreaks Hm st'.
  assert (Hn : current_student_name st <> "").
  { intros E. destruct Hbreaks as [Hl _]. rewrite E in Hl. simpl in Hl. lia. }
  pose proof (In_keys_run_finalize st acts Hreach Hn Hm) as Hin. fold st' in Hin.
  split; [exact Hin|].
  assert (Hreach' : reachable st').
  { apply reachable_run. apply (reachable_run [Finalize] st Hreach). }
  rewrite update_summary_list_rows, report_rows_outcome.
  unfold keys in Hin. apply in_map_iff in Hin as ([name r] & E & Hin).
  cbn [fst] in E. subst name.
  apply List.Exists_exists. exists (current_student_name st, r).
  split; [exact Hin|]. apply report_row_outcome. cbn [fst snd].
  apply report_line_long_name; [exact Hbreaks|].
  destruct (reachable_record st' _ r Hreach' Hin) as (_ & -> & _).
  apply has_space_get_grade.
Qed.

Lemma long_name_breaks_report_for_good_witness :
  reachable long_name_session
  /\ breaks_report (current_student_name long_name_session)
  /\ session_marks long_name_session <> []
  /\ snd (update_summary_list
            (run [StartSession "Zoe"] (fst (finalize_student long_name_session))))
     = IndexError.
Proof.
  assert (Hreach : reachable long_name_session)
    by (do 2 apply reachable_run; eexists; reflexivity).
  assert (Hname : current_student_name long_name_session = "Bartholomew-Smith")
    by (vm_compute; reflexivity).
  assert (Hbreaks : breaks_report (current_student_name long_name_session)).
  { rewrite Hname. split; [cbn; lia|reflexivity]. }
  assert (Hm : session_marks long_name_session <> []).
  { assert (E : session_marks long_name_session = [("Math", finite 80)])
      by (vm_compute; reflexivity).
    rewrite E. discriminate. }
  split; [exact Hreach|]. split; [exact Hbreaks|]. split; [exact Hm|].
  apply (long_name_breaks_report_for_good long_name_session [StartSession "Zoe"]
           Hreach Hbreaks Hm).
Defined.

Lemma dict_set_twice {V} (d : dict V) k v :
  dict_set (dict_set d k v) k v = dict_set d k v.
Proof.
  induction d as [|[k' v'] r IH]; cbn [dict_set].
  - now rewrite String.eqb_refl.
  - destruct (k' =? k)%string eqn:E; cbn [dict_set]; rewrite E; [reflexivity|].
    now rewrite IH.
Qed.

(** X15: entering the same valid module and mark a second time changes
    nothing that can be seen (roster, session name, session marks, order of
    the modules): only the overwrite warning is shown, with the same value
    as old and new mark. *)
Theorem add_module_mark_twice st c w :
  reachable st ->
  current_student_name st <> "" ->
  writes_of c w ->
  let st1 := fst (add_module_mark (fst c) (snd c) st) in
  let st2 := fst (add_module_mark (fst c) (snd c) st1) in
  view st2 = view st1
  /\ snd (add_module_mark (fst c) (snd c) st1)
     = [WarnOverwritten (fst w) (snd w) (snd w)].
Proof.
  intros Hreach Hn Hc st1 st2.
  pose proof (reachable_invariant st Hreach) as Hinv.
  assert (Hinv1 : invariant st1) by now apply invariant_add_module_mark.
  destruct (add_module_mark_write c w st Hinv Hn Hc) as (E1 & E2 & _ & _).
  fold st1 in E1, E2.
  assert (Hn1 : current_student_name st1 <> "") by congruence.
  destruct (add_module_mark_write c w st1 Hinv1 Hn1 Hc) as (F1 & F2 & _ & F4).
  fold st2 in F1, F2. split.
  - pose proof (view_perform (AddMark (fst c) (snd c)) st1 Hinv1) as Hv.
    cbn [perform] in Hv. fold st2 in Hv.
    pose proof (f_equal (fun v => fst (fst v)) Hv) as Hr.
    unfold view at 2 in Hr. cbn [view_step] in Hr.
    assert (Hroster : roster_view st2 = roster_view st1).
    { cbn [view fst] in Hr. rewrite Hr.
      destruct (current_student_name st1 =? "")%string; [reflexivity|].
      destruct ((strip (fst c) =? "") || (strip (snd c) =? ""))%string;
        [reflexivity|].
      destruct (py_float (strip (snd c))) as [mark|]; [|reflexivity].
      now destruct (in_range mark). }
    unfold view. rewrite Hroster, F2, F1, E1. now rewrite dict_set_twice.
  - rewrite F4, E1. now rewrite dict_get_set_eq.
Qed.

Lemma add_module_mark_twice_witness :
  reachable alice_named
  /\ current_student_name alice_named <> ""
  /\ writes_of (" Math", "80") ("Math", finite 80)
  /\ snd (add_module_mark " Math" "80"
            (fst (add_module_mark " Math" "80" alice_named)))
     = [WarnOverwritten "Math" (finite 80) (finite 80)].
Proof.
  assert (Hreach : reachable alice_named) by (eexists; reflexivity).
  assert (Hn : current_student_name alice_named <> "") by discriminate.
  assert (Hc : writes_of (" Math", "80") ("Math", finite 80)).
  { unfold writes_of. repeat split; try discriminate; reflexivity. }
  split; [exact Hreach|]. split; [exact Hn|]. split; [exact Hc|].
  exact (proj2 (add_module_mark_twice alice_named (" Math", "80")
                  ("Math", finite 80) Hreach Hn Hc)).
Defined.

(** X16: get_grade gives the best grade earned: for an average within
    [0,100] the minimum of the grade returned is at most the average, and
    no grade of GRADE_BOUNDARIES whose minimum is at most the average has a
    larger minimum. *)
Theorem get_grade_best avg :
  in_range avg = true ->
  exists lower,
    dict_get GRADE_BOUNDARIES (get_grade (Some avg)) = Some lower
    /\ float_le (of_int lower) avg = true
    /\ forall g' lower',
        dict_get GRADE_BOUNDARIES g' = Some lower' ->
        float_le (of_int lower') avg = true ->
        (lower' <= lower)%Z.
Proof.
  intros Hr. destruct (in_range_inv _ Hr) as (q & -> & H0 & H1).
  rewrite get_grade_finite_in_range by assumption.
  assert (Hall : forall g' lower',
             dict_get GRADE_BOUNDARIES g' = Some lower' ->
             float_le (of_int lower') (finite q) = true ->
             lower' = 90%Z /\ (90 <= q)%Q \/ lower' = 80%Z /\ (80 <= q)%Q
             \/ lower' = 70%Z /\ (70 <= q)%Q \/ lower' = 60%Z /\ (60 <= q)%Q
             \/ lower' = 0%Z).
  { intros g' lower' Hget Hle. unfold float_le, of_int in Hle.
    apply Qle_bool_iff in Hle. unfold GRADE_BOUNDARIES in Hget.
    cbn [dict_get] in Hget.
    repeat match type of Hget with
           | (if ?b then _ else _) = _ =>
               destruct b; [injection Hget as <-; unfold inject_Z in Hle; tauto|]
           end.
    discriminate. }
  unfold float_le, of_int.
  decide_bounds; eexists; (split; [reflexivity|]);
    (split; [apply Qle_bool_iff; unfold inject_Z; lra|]);
    intros g' lower' Hget Hle;
    destruct (Hall g' lower' Hget Hle) as [[-> ?]|[[-> ?]|[[-> ?]|[[-> ?]| ->]]]];
    try lia; exfalso; lra.
Qed.

Lemma get_grade_best_witness :
  in_range (finite 79.999) = true
  /\ exists lower,
      dict_get GRADE_BOUNDARIES (get_grade (Some (finite 79.999))) = Some lower
      /\ float_le (of_int lower) (finite 79.999) = true
      /\ forall g' lower',
          dict_get GRADE_BOUNDARIES g' = Some lower' ->
          float_le (of_int lower') (finite 79.999) = true ->
          (lower' <= lower)%Z.
Proof.
  split; [reflexivity|].
  apply (get_grade_best (finite 79.999)). reflexivity.
Defined.
